(** * SmartParking Flow: sensor simulator and query service

    A shallow embedding of [src/sensores.py] (the sensor simulator and the
    Kafka publisher) and of [src/SmartParking Flow/app.py] (the Flask query
    service), followed by the properties of the specification.

    Modelling conventions.
    - Python [int] is [Z].  A Python [float] is modelled by the rational
      it denotes ([Q]): every float operation of the program computes the
      exact result and rounds it to the nearest binary64 number, ties to
      even ([Py.binary64]), as IEEE 754 arithmetic does; infinities and
      NaN are not modelled, no operation of the program produces them from
      finite draws.  The averages the store computes are the exception:
      they are exact rationals, see [Mongo.avg].
    - The [random] module is an oracle: every draw is an explicit argument
      of the operation that consumes it.  A draw of a float ranges over
      all rationals, the binary64 numbers among them; a decimal literal
      [d] of the program denotes [Py.binary64 d].
    - [datetime] readings are explicit string arguments.
    - A Python exception is a value of [Py.exn]; a call that can raise
      returns [Py.result].
    - The bay dictionary is a [gmap string Bay].  A [gmap] enumerates its
      keys in a canonical order rather than in insertion order; the only
      consumer of the order is [random.choice], whose index is an oracle
      draw, so the set of behaviours is the same. *)

From Stdlib Require Import ZArith QArith Qround Qpower Qabs Lqa.
From Stdlib Require Import Permutation Sorted Ascii.
From stdpp Require Import gmap strings list fin_maps pretty.

Open Scope Z_scope.

(** ** Python values, exceptions and numeric builtins *)

Module Py.

Inductive exn : Type :=
| KeyError (key : string)
| IndexError
| ZeroDivisionError
| TypeError (msg : string)
| ValueError (msg : string)
| OverflowError (msg : string)
| KafkaError (msg : string)
| PyMongoError (msg : string).

(** [str(e)]. *)
Definition str (e : exn) : string :=
  match e with
  | KeyError k => "'" +:+ k +:+ "'"
  | IndexError => "list index out of range"
  | ZeroDivisionError => "division by zero"
  | TypeError msg => msg
  | ValueError msg => msg
  | OverflowError msg => msg
  | KafkaError msg => msg
  | PyMongoError msg => msg
  end.

Inductive result (A : Type) : Type :=
| Returns (a : A)
| Raises (e : exn).
Arguments Returns {A} a.
Arguments Raises {A} e.

Definition bind {A B : Type} (r : result A) (k : A -> result B) : result B :=
  match r with
  | Returns a => k a
  | Raises e => Raises e
  end.

(** [x < y] on floats. *)
Definition flt (x y : Q) : bool := negb (Qle_bool y x).

(** [min(a, b)]: the first argument unless the second is strictly less. *)
Definition min (a b : Q) : Q := if flt b a then b else a.

(** [max(a, b)]: the first argument unless the second is strictly greater. *)
Definition max (a b : Q) : Q := if flt a b then b else a.

(** Nearest integer, ties to the even neighbour. *)
Definition round_half_even (q : Q) : Z :=
  let f := Qfloor q in
  match Qcompare (q - inject_Z f) (1 # 2) with
  | Lt => f
  | Gt => f + 1
  | Eq => if Z.even f then f else f + 1
  end.

(** The decimal with [ndigits] digits after the point nearest to [x],
    ties to the even last digit. *)
Definition round_decimal (x : Q) (ndigits : nat) : Q :=
  let scale := Pos.pow 10 (Pos.of_nat ndigits) in
  match ndigits with
  | O => inject_Z (round_half_even x)
  | S _ => Qmake (round_half_even (x * inject_Z (Zpos scale))) scale
  end.

(** [floor(log2(q))] for a positive rational. *)
Definition ilog2 (q : Q) : Z :=
  let m := Z.log2 (Qnum q) - Z.log2 (Z.pos (Qden q)) in
  if Qle_bool ((2 # 1) ^ m) q then m else m - 1.

(** The exponent of the last mantissa bit of the binary64 numbers of the
    magnitude of [q]: 53 bits of mantissa, subnormal below [2 ^ -1022]. *)
Definition ulp_exponent (q : Q) : Z := Z.max (ilog2 (Qabs q) - 52) (-1074).

(** The binary64 number nearest to [q], ties to the even mantissa: the
    rounding every float operation applies to its exact result.  The
    overflow to infinity above the largest double is not modelled. *)
Definition binary64 (q : Q) : Q :=
  if Qeq_bool q (0 # 1) then (0 # 1)
  else let e := ulp_exponent q in
       Qred (inject_Z (round_half_even (q / (2 # 1) ^ e)) * (2 # 1) ^ e).

(** [x + y] and [x * y] on floats. *)
Definition float_add (x y : Q) : Q := binary64 (x + y).

Definition float_mul (x y : Q) : Q := binary64 (x * y).

(** [round(x, ndigits)] on a float: the decimal nearest to the value of
    [x], ties to even, converted back to the nearest float. *)
Definition round (x : Q) (ndigits : nat) : Q :=
  binary64 (round_decimal x ndigits).

(** [a / b] on ints (true division): the float nearest to the quotient. *)
Definition truediv (a b : Z) : result Q :=
  if Z.eqb b 0 then Raises ZeroDivisionError
  else Returns (binary64 (inject_Z a / inject_Z b)).

(** [time.sleep(secs)] on an int: a negative length is refused, and so
    is one whose nanoseconds do not fit the 64-bit time type.  Just below
    that bound the clock of the operating system can refuse the deadline
    as well ([OSError]), depending on the platform and on its uptime;
    this is not modelled, and nothing is proved about lengths of [2 ^ 31]
    seconds or more. *)
Definition sleep (secs : Z) : result unit :=
  if secs <? 0 then Raises (ValueError "sleep length must be non-negative")
  else if 2 ^ 63 <=? secs * 10 ^ 9
       then Raises (OverflowError
                      "timestamp too large to convert to C _PyTime_t")
       else Returns ().

(** [range(a, b)]. *)
Definition range (a b : Z) : list Z :=
  List.map (fun i => a + Z.of_nat i) (seq 0 (Z.to_nat (b - a))).

Fixpoint zeros (n : nat) : string :=
  match n with
  | O => EmptyString
  | S n' => String.app "0" (zeros n')
  end.

(** [f"{n:03d}"] for a non-negative [n]. *)
Definition format_03d (n : Z) : string :=
  let s := pretty n in
  String.app (zeros (3 - String.length s)) s.

(** [random.choice(seq)]: [seq[randbelow(len(seq))]], the draw being
    reduced into range; an empty sequence raises [IndexError]. *)
Definition choice {A : Type} (seq : list A) (draw : nat) : result A :=
  match List.nth_error seq (draw mod List.length seq)%nat with
  | Some a => Returns a
  | None => Raises IndexError
  end.

End Py.

#[global] Instance result_ret : MRet Py.result := @Py.Returns.
#[global] Instance result_bind : MBind Py.result :=
fun A B k r => Py.bind r k.

(** ** The sensor simulator ([src/sensores.py]) *)

Module Sensores.
Import Py.

(** One entry of [self.bays]. *)
Record Bay : Type := mkBay {
  bay_id : string;
  parking_id : string;
  level : string;
  occupied : bool;
  temperature_c : Q;
  battery_pct : Z
}.

Record Metrics : Type := mkMetrics {
  m_temperature_c : Q;
  m_battery_pct : Z
}.

(** The dictionary returned by [generate_event]. *)
Record Event : Type := mkEvent {
  ev_bay_id : string;
  ev_parking_id : string;
  ev_level : string;
  ev_occupied : bool;
  ev_last_event_ts : string;
  ev_metrics : Metrics;
  ev_updated_at : string
}.

(** A [ParkingSensorSimulator] object. *)
Record ParkingSensorSimulator : Type := mkSim {
  self_parking_id : string;
  self_levels : Z;
  self_bays_per_level : Z;
  self_bays : gmap string Bay
}.

(** The three draws [_initialize_bays] makes for one bay:
    [random.choice([True, False])], [random.uniform(18.0, 28.0)] and
    [random.randint(60, 100)]. *)
Record InitDraw : Type := mkInitDraw {
  draw_occupied : bool;
  draw_uniform : Q;
  draw_randint : Z
}.

(** What the [random] module guarantees about those draws. *)
Definition valid_draw (d : InitDraw) : Prop :=
  (18 <= draw_uniform d)%Q /\ (draw_uniform d <= 28)%Q /\
  60 <= draw_randint d <= 100.

Definition format_bay_id (lvl bay : Z) : string :=
  "L" +:+ pretty lvl +:+ "-A-" +:+ format_03d bay.

Definition init_bay (pid : string) (rnd : Z -> Z -> InitDraw)
    (lvl bay : Z) : Bay :=
  {| bay_id := format_bay_id lvl bay;
     parking_id := pid;
     level := "L" +:+ pretty lvl;
     occupied := draw_occupied (rnd lvl bay);
     temperature_c := round (draw_uniform (rnd lvl bay)) 1;
     battery_pct := draw_randint (rnd lvl bay) |}.

Definition _initialize_bays (pid : string) (levels bays_per_level : Z)
    (rnd : Z -> Z -> InitDraw) : gmap string Bay :=
  foldl (fun bays lvl =>
           foldl (fun bays bay =>
                    <[format_bay_id lvl bay := init_bay pid rnd lvl bay]> bays)
                 bays (range 1 (bays_per_level + 1)))
        ∅ (range 1 (levels + 1)).

(** [ParkingSensorSimulator(parking_id, levels, bays_per_level)]. *)
Definition __init__ (pid : string) (levels bays_per_level : Z)
    (rnd : Z -> Z -> InitDraw) : ParkingSensorSimulator :=
  {| self_parking_id := pid;
     self_levels := levels;
     self_bays_per_level := bays_per_level;
     self_bays := _initialize_bays pid levels bays_per_level rnd |}.

Definition set_bays (self : ParkingSensorSimulator)
    (bays : gmap string Bay) : ParkingSensorSimulator :=
  {| self_parking_id := self_parking_id self;
     self_levels := self_levels self;
     self_bays_per_level := self_bays_per_level self;
     self_bays := bays |}.

(** [self.bays[bay_id]]. *)
Definition getitem (bays : gmap string Bay) (k : string) : result Bay :=
  match bays !! k with
  | Some b => Returns b
  | None => Raises (KeyError k)
  end.

(** The drift [generate_event] applies to the stored bay: [delta] is the
    draw of [random.uniform(-0.5, 0.5)], [r] the draw of
    [random.random()]; the literal [0.1] is the float nearest to one
    tenth. *)
Definition drift (bay : Bay) (delta r : Q) : Bay :=
  let t1 := round (float_add (temperature_c bay) delta) 1 in
  let t2 := max (15 # 1) (min (35 # 1) t1) in
  let b := if flt r (binary64 (1 # 10))
           then Z.max 20 (battery_pct bay - 1)
           else battery_pct bay in
  {| bay_id := bay_id bay;
     parking_id := parking_id bay;
     level := level bay;
     occupied := occupied bay;
     temperature_c := t2;
     battery_pct := b |}.

Definition snapshot (bay : Bay) (now : string) : Event :=
  {| ev_bay_id := bay_id bay;
     ev_parking_id := parking_id bay;
     ev_level := level bay;
     ev_occupied := occupied bay;
     ev_last_event_ts := now;
     ev_metrics := {| m_temperature_c := temperature_c bay;
                      m_battery_pct := battery_pct bay |};
     ev_updated_at := now |}.

Definition generate_event (self : ParkingSensorSimulator) (bid : string)
    (now : string) (delta r : Q)
    : result (Event * ParkingSensorSimulator) :=
  bay ← getitem (self_bays self) bid;
  let bay' := drift bay delta r in
  mret (snapshot bay' now, set_bays self (<[bid := bay']> (self_bays self))).

Definition flip (bay : Bay) : Bay :=
  {| bay_id := bay_id bay;
     parking_id := parking_id bay;
     level := level bay;
     occupied := negb (occupied bay);
     temperature_c := temperature_c bay;
     battery_pct := battery_pct bay |}.

(** [list(self.bays.keys())]. *)
Definition keys (bays : gmap string Bay) : list string :=
  (map_to_list bays).*1.

(** [list(self.bays.values())]. *)
Definition values (bays : gmap string Bay) : list Bay :=
  (map_to_list bays).*2.

Definition simulate_vehicle_movement (self : ParkingSensorSimulator)
    (draw : nat) : result (string * ParkingSensorSimulator) :=
  bid ← choice (keys (self_bays self)) draw;
  bay ← getitem (self_bays self) bid;
  mret (bid, set_bays self (<[bid := flip bay]> (self_bays self))).

Record Status : Type := mkStatus {
  st_total_bays : Z;
  st_occupied : Z;
  st_free : Z;
  st_occupancy_rate : Q
}.

Definition get_parking_status (self : ParkingSensorSimulator)
    : result Status :=
  let total := Z.of_nat (size (self_bays self)) in
  let occ := Z.of_nat
               (List.length (List.filter occupied (values (self_bays self)))) in
  let free := total - occ in
  q ← truediv occ total;
  mret {| st_total_bays := total;
          st_occupied := occ;
          st_free := free;
          st_occupancy_rate := round (float_mul q (100 # 1)) 1 |}.

(** What a caller can pass as [event]: the dictionary built by
    [generate_event], which is what [run_simulation] passes, or any other
    Python object. *)
Inductive pyvalue : Type :=
| PyEvent (event : Event)
| PyObject (type_name : string).

(** [lambda v: json.dumps(v).encode('utf-8')]: the byte encoding is not
    modelled, the serialised event stands for it.  An event holds strings,
    a boolean, a float and an int, which [json.dumps] always accepts; on
    an object it cannot serialise it raises [TypeError]. *)
Definition value_serializer (v : pyvalue) : result Event :=
  match v with
  | PyEvent e => Returns e
  | PyObject t =>
      Raises (TypeError ("Object of type " +:+ t +:+
                         " is not JSON serializable"))
  end.

(** The outcome of an operation of the [kafka-python] client that
    depends on the broker and the network: it completes, or it raises an
    exception of class [KafkaError], the client's class for broker and
    network errors ([KafkaTimeoutError] among them). *)
Inductive kafka_result (A : Type) : Type :=
| Done (a : A)
| Failed (msg : string).
Arguments Done {A} a.
Arguments Failed {A} msg.

Definition raise_kafka {A : Type} (r : kafka_result A) : result A :=
  match r with
  | Done a => Returns a
  | Failed msg => Raises (KafkaError msg)
  end.

(** The broker side of the [KafkaProducer] client, in the order in which
    a publish meets it: the wait for the metadata of the topic with which
    [send] starts, the hand-over of the serialised record to the send
    buffer, and [future.get(timeout=10)], the bounded wait for the
    acknowledgment of that record. *)
Record KafkaProducer : Type := mkProducer {
  wait_on_metadata : kafka_result unit;
  append : Event -> kafka_result unit;
  future_get : Event -> kafka_result unit
}.

(** [self.producer.send(self.topic, value=event)]: the client waits for
    the metadata, then runs the value serializer, then buffers the
    record; the returned future is identified with the record it stands
    for. *)
Definition send (producer : KafkaProducer) (v : pyvalue) : result Event :=
  _ ← raise_kafka (wait_on_metadata producer);
  e ← value_serializer v;
  _ ← raise_kafka (append producer e);
  mret e.

(** [try: ... except KafkaError: return False]. *)
Definition except_KafkaError (body : result bool) : result bool :=
  match body with
  | Raises (KafkaError _) => Returns false
  | other => other
  end.

Definition publish_event (producer : KafkaProducer) (event : pyvalue)
    : result bool :=
  except_KafkaError
    (future ← send producer event;
     _ ← raise_kafka (future_get producer future);
     mret true).

(** The movement branch of one iteration of [run_simulation]'s loop:
    [simulate_vehicle_movement], [generate_event] on the returned id,
    [publish_event] on the event. *)
Definition movement_branch (simulator : ParkingSensorSimulator)
    (producer : KafkaProducer) (draw : nat) (now : string) (delta r : Q)
    : result (string * Event * bool * ParkingSensorSimulator) :=
  '(bid, sim1) ← simulate_vehicle_movement simulator draw;
  '(event, sim2) ← generate_event sim1 bid now delta r;
  ok ← publish_event producer (PyEvent event);
  mret (bid, event, ok, sim2).

(** One mutation of the simulator by its driving loop. *)
Inductive step : ParkingSensorSimulator -> ParkingSensorSimulator -> Prop :=
| step_event s bid now delta r ev s' :
    generate_event s bid now delta r = Returns (ev, s') -> step s s'
| step_move s draw bid s' :
    simulate_vehicle_movement s draw = Returns (bid, s') -> step s s'.

(** States the driving loop can be in: the constructor's result under
    draws the [random] module can deliver, closed under [step].  The draws
    of a step are left unconstrained, which only adds states. *)
Inductive reachable : ParkingSensorSimulator -> Prop :=
| reach_init pid levels bays_per_level rnd :
    (forall l b, valid_draw (rnd l b)) ->
    reachable (__init__ pid levels bays_per_level rnd)
| reach_step s s' :
    reachable s -> step s s' -> reachable s'.

(** The float the simulator holds for a temperature of [n] tenths of a
    degree: the one nearest to [n / 10]. *)
Definition tenths (n : Z) : Q := binary64 (n # 10).

(** A temperature as the drift logic leaves it: rounded to one decimal
    and clamped to [[15.0, 35.0]]. *)
Definition whole_tenths (t : Q) : Prop :=
  exists n, 150 <= n <= 350 /\ t = tenths n.

(** The bounds of the data model on a stored bay and on an event. *)
Definition bay_in_bounds (b : Bay) : Prop :=
  ((15 # 1) <= temperature_c b)%Q /\ (temperature_c b <= (35 # 1))%Q /\
  0 <= battery_pct b <= 100.

Definition event_in_bounds (ev : Event) : Prop :=
  ((15 # 1) <= m_temperature_c (ev_metrics ev))%Q /\
  (m_temperature_c (ev_metrics ev) <= (35 # 1))%Q /\
  0 <= m_battery_pct (ev_metrics ev) <= 100.

(** What the drift logic maintains: the battery never leaves
    [[20, 100]]. *)
Definition bay_inv (b : Bay) : Prop :=
  ((15 # 1) <= temperature_c b)%Q /\ (temperature_c b <= (35 # 1))%Q /\
  20 <= battery_pct b <= 100.

(** How the constructor labels the bay stored under key [k]: the key is
    [f"L{level}-A-{bay:03d}"] for a level and a bay number of the
    configured ranges, and the record repeats the key, the level label and
    the simulator's parking id. *)
Definition well_labelled (self : ParkingSensorSimulator) (k : string)
    (b : Bay) : Prop :=
  bay_id b = k /\ parking_id b = self_parking_id self /\
  exists lvl n,
    1 <= lvl <= self_levels self /\ 1 <= n <= self_bays_per_level self /\
    k = format_bay_id lvl n /\ level b = "L" +:+ pretty lvl.

(** *** The driving loop of [run_simulation] *)

(** The draws and the clock reading one iteration of the loop consumes:
    [random.random()] of the loop itself, then those of
    [simulate_vehicle_movement] and [generate_event]. *)
Record IterationDraw : Type := mkIterationDraw {
  it_random : Q;
  it_choice : nat;
  it_now : string;
  it_uniform : Q;
  it_battery : Q
}.

(** What one [print] of the loop reports; the text rendering of a line is
    not modelled. *)
Inductive LogEntry : Type :=
| LogMovement (iteration : Z) (action bid : string) (temp : Q) (battery : Z)
| LogPublishError (iteration : Z) (bid : string)
| LogStatus (iteration : Z) (occ total : Z) (rate : Q).

Definition is_status (entry : LogEntry) : bool :=
  match entry with
  | LogStatus _ _ _ _ => true
  | _ => false
  end.

(** The body of [while True], [iteration] being the counter after its
    increment.  Its last statement is [time.sleep(interval)]; [interval]
    is the int that [--interval] was given, which can be negative. *)
Definition loop_body (interval : Z) (event_probability : Q)
    (producer : KafkaProducer) (iteration : Z) (draw : IterationDraw)
    (simulator : ParkingSensorSimulator)
    : result (ParkingSensorSimulator * list LogEntry) :=
  '(sim1, log1) ←
    (if flt (it_random draw) event_probability
     then
       '(bid, event, ok, sim2) ←
         movement_branch simulator producer (it_choice draw) (it_now draw)
                         (it_uniform draw) (it_battery draw);
       mret (sim2,
             [if ok : bool
              then LogMovement iteration
                     (if ev_occupied event then "ENTRADA" else "SALIDA") bid
                     (m_temperature_c (ev_metrics event))
                     (m_battery_pct (ev_metrics event))
              else LogPublishError iteration bid])
     else mret (simulator, []));
  log2 ←
    (if iteration `mod` 10 =? 0
     then status ← get_parking_status sim1;
          mret [LogStatus iteration (st_occupied status)
                          (st_total_bays status) (st_occupancy_rate status)]
     else mret []);
  _ ← sleep interval;
  mret (sim1, log1 ++ log2).

(** The loop, run for the iterations that complete before the interrupt:
    one element of [draws] per iteration, [iteration] being the counter
    before the first of them. *)
Fixpoint run_loop (interval : Z) (event_probability : Q)
    (producer : KafkaProducer) (iteration : Z) (draws : list IterationDraw)
    (simulator : ParkingSensorSimulator)
    : result (ParkingSensorSimulator * list LogEntry) :=
  match draws with
  | [] => mret (simulator, [])
  | draw :: draws' =>
      '(sim1, log1) ← loop_body interval event_probability producer
                                (iteration + 1) draw simulator;
      '(sim2, log2) ← run_loop interval event_probability producer
                               (iteration + 1) draws' sim1;
      mret (sim2, log1 ++ log2)
  end.

End Sensores.

(** ** The persisted store, as the query service reads it *)

Module Mongo.
Import Py.

(** [metrics] sub-document; a field may be absent. *)
Record DocMetrics : Type := mkDocMetrics {
  temperature_c : option Q;
  battery_pct : option Z
}.

(** One document of the [bays] collection, as the data model of the
    specification (section 3) types it: [level] a string, [occupied] a
    boolean, [metrics] a sub-document of numbers; a field may be absent,
    as in the document inserted by [src/pruebas.py], which has no
    [metrics] and no [last_event_ts].  Documents of other shapes (an
    [occupied] that is a string, a [metrics] that is an array) are
    outside the model, and what is proved says nothing about them. *)
Record BayDoc : Type := mkBayDoc {
  bay_id : string;
  parking_id : string;
  level : option string;
  occupied : option bool;
  last_event_ts : option string;
  metrics : option DocMetrics;
  updated_at : option string
}.

(** The field paths ["$metrics.temperature_c"] and
    ["$metrics.battery_pct"]. *)
Definition path_temperature (d : BayDoc) : option Q :=
  m ← metrics d; temperature_c m.

Definition path_battery (d : BayDoc) : option Z :=
  m ← metrics d; battery_pct m.

(** A database handle during one request: every command either answers
    or raises, and the collections do not change while the request is
    served, so that the reads of one request see the same documents. *)
Record Database : Type := mkDatabase {
  cmd_ping : result unit;
  bays : result (list BayDoc);
  events : result (list Sensores.Event)
}.

(** [collection.count_documents(filter)]. *)
Definition count_documents {A : Type} (coll : result (list A))
    (filter : A -> bool) : result Z :=
  docs ← coll;
  mret (Z.of_nat (List.length (List.filter filter docs))).

(** The filter [{}]. *)
Definition match_all {A : Type} (_ : A) : bool := true.

(** The filter [{"occupied": True}]. *)
Definition match_occupied (d : BayDoc) : bool :=
  match occupied d with
  | Some true => true
  | _ => false
  end.

(** The filter [{"metrics.battery_pct": {"$lt": threshold}}]: only a
    document that has the field can match. *)
Definition match_battery_lt (threshold : Z) (d : BayDoc) : bool :=
  match path_battery d with
  | Some b => b <? threshold
  | None => false
  end.

(** Insertion sort, the model of an ascending sort stage. *)
Fixpoint insert_by {A : Type} (le : A -> A -> bool) (x : A) (l : list A)
    : list A :=
  match l with
  | [] => [x]
  | y :: l' => if le x y then x :: l else y :: insert_by le x l'
  end.

Fixpoint sort_by {A : Type} (le : A -> A -> bool) (l : list A) : list A :=
  match l with
  | [] => []
  | x :: l' => insert_by le x (sort_by le l')
  end.

(** Ascending order on an optional integer key: absent first. *)
Definition key_le_Z (a b : option Z) : bool :=
  match a, b with
  | None, _ => true
  | Some _, None => false
  | Some x, Some y => x <=? y
  end.

(** Ascending order on an optional string key: absent first, strings by
    their code units. *)
Definition key_le_string (a b : option string) : bool :=
  match a, b with
  | None, _ => true
  | Some _, None => false
  | Some x, Some y => String.leb x y
  end.

(** [collection.find(filter).sort(key, 1)]. *)
Definition find_sorted {A K : Type} (coll : result (list A))
    (filter : A -> bool) (key : A -> K) (le : K -> K -> bool)
    : result (list A) :=
  docs ← coll;
  mret (sort_by (fun a b => le (key a) (key b)) (List.filter filter docs)).

(** One output document of the [$group] stage of [get_stats]. *)
Record Group : Type := mkGroup {
  _id : option string;
  g_total : Z;
  g_occupied : Z;
  g_free : Z;
  g_avg_temperature : option Q;
  g_avg_battery : option Q;
  g_low_battery_count : Z
}.

(** [{"$cond": ["$occupied", a, b]}]: [a] when the field is true, [b]
    when it is false, null or absent. *)
Definition cond_occupied (d : BayDoc) (a b : Z) : Z :=
  match occupied d with
  | Some true => a
  | Some false | None => b
  end.

(** [{"$sum": expr}]. *)
Definition sum_Z (l : list Z) : Z := foldr Z.add 0 l.

Definition sum_Q (l : list Q) : Q := foldr Qplus (0 # 1) l.

(** [{"$avg": path}]: the mean of the values that are present, null when
    none is.  The store computes it in its own arithmetic, which is not
    modelled: the mean is the exact rational. *)
Definition avg (l : list (option Q)) : option Q :=
  match omap id l with
  | [] => None
  | x :: xs =>
      Some (sum_Q (x :: xs) / inject_Z (Z.of_nat (List.length (x :: xs))))%Q
  end.

(** [{"$lt": ["$metrics.battery_pct", 20]}] as an aggregation expression:
    an absent field compares below every number. *)
Definition expr_battery_lt (threshold : Z) (d : BayDoc) : bool :=
  match path_battery d with
  | Some b => b <? threshold
  | None => true
  end.

Definition accumulate (key : option string) (docs : list BayDoc) : Group :=
  {| _id := key;
     g_total := sum_Z ((fun _ => 1) <$> docs);
     g_occupied := sum_Z ((fun d => cond_occupied d 1 0) <$> docs);
     g_free := sum_Z ((fun d => cond_occupied d 0 1) <$> docs);
     g_avg_temperature := avg (path_temperature <$> docs);
     g_avg_battery := avg ((fun d => inject_Z <$> path_battery d) <$> docs);
     g_low_battery_count :=
       sum_Z ((fun d => if expr_battery_lt 20 d then 1 else 0) <$> docs) |}.

(** The [$group] stage keyed by ["$level"]: one output document per
    distinct key, in order of first appearance. *)
Definition group_by_level (docs : list BayDoc) : list Group :=
  (fun k => accumulate k (List.filter (fun d => bool_decide (level d = k)) docs))
    <$> remove_dups (level <$> docs).

(** [db.bays.aggregate(pipeline)] for the pipeline of [get_stats]:
    [$group] then [{"$sort": {"_id": 1}}]. *)
Definition aggregate_by_level (coll : result (list BayDoc))
    : result (list Group) :=
  docs ← coll;
  mret (sort_by (fun a b => key_le_string (_id a) (_id b))
                (group_by_level docs)).

End Mongo.

(** ** The query service ([src/SmartParking Flow/app.py]) *)

Module App.
Import Py Mongo.

(** A JSON body paired with an HTTP status code. *)
Definition response (A : Type) : Type := (A * Z)%type.

Definition body_of {A : Type} (r : response A) : A := fst r.
Definition status_code {A : Type} (r : response A) : Z := snd r.

(** The body of an endpoint: its success document or the error document
    [{"success": ..., "error": ...}] (the key [success] is absent from
    the 503 body). *)
Inductive body (A : Type) : Type :=
| Ok (a : A)
| Error (success : option bool) (error : string).
Arguments Ok {A} a.
Arguments Error {A} success error.

(** *** [/api/health] *)

Record Health : Type := mkHealth {
  h_status : string;
  h_database : option string;
  h_total_bays : option Z;
  h_total_events : option Z;
  h_error : option string;
  h_timestamp : string
}.

Definition health_check (db : option Database) (now : string)
    : response Health :=
  match db with
  | None =>
      ({| h_status := "unhealthy"; h_database := Some "disconnected";
          h_total_bays := None; h_total_events := None;
          h_error := None; h_timestamp := now |}, 503)
  | Some db =>
      match (_ ← cmd_ping db;
             total_bays ← count_documents (bays db) match_all;
             total_events ← count_documents (events db) match_all;
             mret (total_bays, total_events)) with
      | Returns (total_bays, total_events) =>
          ({| h_status := "healthy"; h_database := Some "connected";
              h_total_bays := Some total_bays;
              h_total_events := Some total_events;
              h_error := None; h_timestamp := now |}, 200)
      | Raises e =>
          ({| h_status := "unhealthy"; h_database := None;
              h_total_bays := None; h_total_events := None;
              h_error := Some (str e); h_timestamp := now |}, 503)
      end
  end.

(** The store is unreachable: no connection was made at start-up, or
    the ping or one of the two counts raises. *)
Definition store_unreachable (db : option Database) : Prop :=
  match db with
  | None => True
  | Some db =>
      (exists e, cmd_ping db = Raises e) \/
      (exists e, bays db = Raises e) \/
      (exists e, events db = Raises e)
  end.

(** *** [/api/stats] *)

Record LevelStats : Type := mkLevelStats {
  ls_level : option string;
  ls_total : Z;
  ls_occupied : Z;
  ls_free : Z;
  ls_occupancy_rate : Q;
  ls_avg_temperature : option Q;
  ls_avg_battery : option Q;
  ls_low_battery_sensors : Z
}.

Record Stats : Type := mkStats {
  s_success : bool;
  s_total : Z;
  s_occupied : Z;
  s_free : Z;
  s_occupancy_rate : Q;
  s_levels : list LevelStats;
  s_timestamp : string
}.

(** [round((occupied / total * 100), 2) if total > 0 else 0]. *)
Definition occupancy_rate (occ total : Z) : result Q :=
  if total >? 0
  then q ← truediv occ total; mret (round (float_mul q (100 # 1)) 2)
  else mret (0 # 1).

(** Truth value of an average: [None] and [0.0] are false. *)
Definition truthy (x : option Q) : bool :=
  match x with
  | None => false
  | Some q => negb (Qeq_bool q (0 # 1))
  end.

(** [round(x, 1) if x else None]; the average being an exact rational,
    its rounding is the decimal the response shows. *)
Definition round_or_none (x : option Q) : option Q :=
  if truthy x then (fun q => round_decimal q 1) <$> x else None.

Definition format_level (lvl : Group) : result LevelStats :=
  rate ← occupancy_rate (g_occupied lvl) (g_total lvl);
  mret {| ls_level := _id lvl;
          ls_total := g_total lvl;
          ls_occupied := g_occupied lvl;
          ls_free := g_free lvl;
          ls_occupancy_rate := rate;
          ls_avg_temperature := round_or_none (g_avg_temperature lvl);
          ls_avg_battery := round_or_none (g_avg_battery lvl);
          ls_low_battery_sensors := g_low_battery_count lvl |}.

Definition get_stats (db : option Database) (now : string)
    : response (body Stats) :=
  match db with
  | None => (Error None "Database connection not available", 503)
  | Some db =>
      match (total ← count_documents (bays db) match_all;
             occ ← count_documents (bays db) match_occupied;
             let free := total - occ in
             rate ← occupancy_rate occ total;
             by_level ← aggregate_by_level (bays db);
             levels_stats ← mapM format_level by_level;
             mret {| s_success := true;
                     s_total := total;
                     s_occupied := occ;
                     s_free := free;
                     s_occupancy_rate := rate;
                     s_levels := levels_stats;
                     s_timestamp := now |}) with
      | Returns stats => (Ok stats, 200)
      | Raises e => (Error (Some false) (str e), 500)
      end
  end.

(** *** [/api/maintenance/low-battery] *)

Record LowBattery : Type := mkLowBattery {
  lb_success : bool;
  lb_total_count : Z;
  lb_urgent_count : Z;
  lb_high_priority_count : Z;
  lb_urgent : list BayDoc;
  lb_high_priority : list BayDoc;
  lb_threshold : Z
}.

(** [b['metrics']['battery_pct']]. *)
Definition getitem_battery (b : BayDoc) : result Z :=
  match metrics b with
  | None => Raises (KeyError "metrics")
  | Some m =>
      match battery_pct m with
      | None => Raises (KeyError "battery_pct")
      | Some x => Returns x
      end
  end.

(** [[b for b in l if p(b)]] where [p] can raise. *)
Fixpoint comprehension {A : Type} (p : A -> result bool) (l : list A)
    : result (list A) :=
  match l with
  | [] => mret []
  | b :: l' =>
      keep ← p b;
      rest ← comprehension p l';
      mret (if keep : bool then b :: rest else rest)
  end.

Definition low_battery_threshold : Z := 20.

(** The query of [get_low_battery_bays]. *)
Definition low_battery_bays (coll : result (list BayDoc))
    : result (list BayDoc) :=
  find_sorted coll (match_battery_lt low_battery_threshold)
              path_battery key_le_Z.

Definition get_low_battery_bays (db : option Database)
    : response (body LowBattery) :=
  match db with
  | None => (Error None "Database connection not available", 503)
  | Some db =>
      match (low ← low_battery_bays (bays db);
             urgent ← comprehension
               (fun b => x ← getitem_battery b; mret (x <? 10)) low;
             high ← comprehension
               (fun b => x ← getitem_battery b;
                         mret ((10 <=? x) && (x <? 20))) low;
             mret {| lb_success := true;
                     lb_total_count := Z.of_nat (List.length low);
                     lb_urgent_count := Z.of_nat (List.length urgent);
                     lb_high_priority_count := Z.of_nat (List.length high);
                     lb_urgent := urgent;
                     lb_high_priority := high;
                     lb_threshold := low_battery_threshold |}) with
      | Returns res => (Ok res, 200)
      | Raises e => (Error (Some false) (str e), 500)
      end
  end.

(** How the four data endpoints answer, by the state of the store: 503
    with the fixed message when no connection was made, 500 with the text
    of the exception when reading [bays] raises, 200 with a success
    document otherwise. *)
Definition store_outcome {A : Type} (db : option Database)
    (r : response (body A)) : Prop :=
  match db with
  | None => r = (Error None "Database connection not available", 503)
  | Some d =>
      match bays d with
      | Raises e => r = (Error (Some false) (str e), 500)
      | Returns _ => exists a, r = (Ok a, 200)
      end
  end.

(** *** [/api/bays] *)

Record BayList : Type := mkBayList {
  bl_success : bool;
  bl_count : Z;
  bl_data : list BayDoc;
  bl_timestamp : string
}.

(** The projection of [get_bays] keeps the seven fields of [BayDoc] and
    drops [_id], which [BayDoc] does not carry: it is the identity here. *)
Definition get_bays (db : option Database) (now : string)
    : response (body BayList) :=
  match db with
  | None => (Error None "Database connection not available", 503)
  | Some db =>
      match find_sorted (bays db) match_all bay_id String.leb with
      | Returns data =>
          (Ok {| bl_success := true;
                 bl_count := Z.of_nat (List.length data);
                 bl_data := data;
                 bl_timestamp := now |}, 200)
      | Raises e => (Error (Some false) (str e), 500)
      end
  end.

(** *** [/api/bays/level/<level>] *)

Record LevelList : Type := mkLevelList {
  ll_success : bool;
  ll_level : string;
  ll_count : Z;
  ll_data : list BayDoc;
  ll_message : option string
}.

(** The filter [{"level": level_upper}]. *)
Definition match_level (level_upper : string) (d : BayDoc) : bool :=
  bool_decide (level d = Some level_upper).

(** [upper] stands for [str.upper], which is taken as a parameter: what
    is proved holds whatever it computes. *)
Definition get_bays_by_level (upper : string -> string)
    (db : option Database) (lvl : string) : response (body LevelList) :=
  match db with
  | None => (Error None "Database connection not available", 503)
  | Some db =>
      let level_upper := upper lvl in
      match find_sorted (bays db) (match_level level_upper)
                        bay_id String.leb with
      | Returns [] =>
          (Ok {| ll_success := true;
                 ll_level := level_upper;
                 ll_count := 0;
                 ll_data := [];
                 ll_message :=
                   Some ("No hay plazas en el nivel " +:+ level_upper) |},
           200)
      | Returns data =>
          (Ok {| ll_success := true;
                 ll_level := level_upper;
                 ll_count := Z.of_nat (List.length data);
                 ll_data := data;
                 ll_message := None |}, 200)
      | Raises e => (Error (Some false) (str e), 500)
      end
  end.

End App.

(** ** Concrete inputs used to exercise the statements *)

Module Examples.
Import Py Sensores.

(** Draws of [_initialize_bays]: every bay draws the float [23.45] and 80
    percent, odd bays free and even bays occupied. *)
Definition rnd0 (lvl bay : Z) : InitDraw :=
  {| draw_occupied := Z.even bay;
     draw_uniform := binary64 (2345 # 100);
     draw_randint := 80 |}.

(** [ParkingSensorSimulator()] with its default arguments. *)
Definition sim0 : ParkingSensorSimulator := __init__ "PK-CADIZ-01" 2 10 rnd0.

Definition now0 : string := "2025-10-18T10:00:00Z".

(** The event of bay 1 of level 1 as initialised. *)
Definition event0 : Event :=
  snapshot (init_bay "PK-CADIZ-01" rnd0 1 1) now0.

(** A broker that accepts and acknowledges every record. *)
Definition producer_ok : KafkaProducer :=
  {| wait_on_metadata := Done ();
     append := fun _ => Done ();
     future_get := fun _ => Done () |}.

(** A broker whose acknowledgment never arrives within the timeout. *)
Definition producer_timeout : KafkaProducer :=
  {| wait_on_metadata := Done ();
     append := fun _ => Done ();
     future_get := fun _ => Failed "Timeout after waiting for 10 secs." |}.

(** A broker that is down: the send itself times out, waiting for the
    metadata. *)
Definition producer_down : KafkaProducer :=
  {| wait_on_metadata := Failed "Failed to update metadata after 60.0 secs.";
     append := fun _ => Done ();
     future_get := fun _ => Done () |}.

(** Twelve iterations in which every draw triggers a movement. *)
Definition draws0 : list IterationDraw :=
  List.map (fun i => {| it_random := binary64 (1 # 10);
                        it_choice := i;
                        it_now := now0;
                        it_uniform := 1 # 4;
                        it_battery := binary64 (1 # 20) |})
           (seq 0 12).

(** Documents of the [bays] collection. *)
Definition doc (bid lvl : string) (occ : bool) (t : Q) (b : Z)
    : Mongo.BayDoc :=
  {| Mongo.bay_id := bid;
     Mongo.parking_id := "PK-CADIZ-01";
     Mongo.level := Some lvl;
     Mongo.occupied := Some occ;
     Mongo.last_event_ts := Some now0;
     Mongo.metrics := Some {| Mongo.temperature_c := Some t;
                              Mongo.battery_pct := Some b |};
     Mongo.updated_at := Some now0 |}.

(** The document [src/pruebas.py] inserts. *)
Definition test_bay : Mongo.BayDoc :=
  {| Mongo.bay_id := "TEST-001";
     Mongo.parking_id := "PK-CADIZ-01";
     Mongo.level := Some "L1";
     Mongo.occupied := Some false;
     Mongo.last_event_ts := None;
     Mongo.metrics := None;
     Mongo.updated_at := Some "2025-10-18T10:00:00Z" |}.

Definition store0 : list Mongo.BayDoc :=
  [ doc "L2-A-001" "L2" true (201 # 10) 15;
    doc "L1-A-001" "L1" false (22 # 1) 4;
    doc "L2-A-002" "L2" false (25 # 1) 5;
    test_bay;
    doc "L1-A-002" "L1" true (19 # 1) 12;
    doc "L3-A-001" "L3" true (18 # 1) 64 ].

Definition db_of (docs : list Mongo.BayDoc) : option Mongo.Database :=
  Some {| Mongo.cmd_ping := Returns ();
          Mongo.bays := Returns docs;
          Mongo.events := Returns [event0] |}.

(** 160 bays on one level, the first 23 of them occupied. *)
Definition store160 : list Mongo.BayDoc :=
  (fun i => doc ("L1-A-" +:+ format_03d i) "L1" (i <=? 23) (22 # 1) 80)
    <$> range 1 161.

(** A store whose only bay reports a flat battery. *)
Definition store_flat : list Mongo.BayDoc :=
  [ doc "L1-A-001" "L1" false (22 # 1) 0 ].

(** A connection on which reading the [bays] collection fails. *)
Definition db_query_fails : option Mongo.Database :=
  Some {| Mongo.cmd_ping := Returns ();
          Mongo.bays := Raises (PyMongoError "operation timed out");
          Mongo.events := Returns [] |}.

(** [str.upper] on the letters a to z, enough for the example inputs. *)
Fixpoint ascii_upper (s : string) : string :=
  match s with
  | EmptyString => EmptyString
  | String c s' =>
      let n := Ascii.nat_of_ascii c in
      String (if ((97 <=? n) && (n <=? 122))%nat
              then Ascii.ascii_of_nat (n - 32) else c)
             (ascii_upper s')
  end.

(** A connection whose ping fails. *)
Definition db_ping_fails : option Mongo.Database :=
  Some {| Mongo.cmd_ping := Raises (PyMongoError "connection closed");
          Mongo.bays := Returns store0;
          Mongo.events := Returns [] |}.

End Examples.

(** ** Facts about the numeric builtins *)

Module PyFacts.
Import Py.

Lemma flt_true (x y : Q) : flt x y = true <-> (x < y)%Q.
Proof.
  unfold flt. rewrite negb_true_iff, <- not_true_iff_false, Qle_bool_iff.
  split; [apply Qnot_le_lt | apply Qlt_not_le].
Qed.

Lemma flt_false (x y : Q) : flt x y = false <-> (y <= x)%Q.
Proof.
  unfold flt. rewrite negb_false_iff, Qle_bool_iff. reflexivity.
Qed.

(** The clamp of [generate_event] lands in its interval whatever it is
    given. *)
Lemma clamp_bounds (lo hi t : Q) :
  (lo <= hi)%Q -> (lo <= max lo (min hi t))%Q /\ (max lo (min hi t) <= hi)%Q.
Proof.
  intros Hlh. unfold max, min.
  destruct (flt t hi) eqn:E1.
  - apply flt_true in E1.
    destruct (flt lo t) eqn:E2.
    + apply flt_true in E2. split; apply Qlt_le_weak; assumption.
    + split; [apply Qle_refl | assumption].
  - destruct (flt lo hi) eqn:E2.
    + split; [assumption | apply Qle_refl].
    + split; [apply Qle_refl | assumption].
Qed.

Lemma round_half_even_lower (a : Z) (q : Q) :
  (inject_Z a <= q)%Q -> a <= round_half_even q.
Proof.
  intros H. apply Qfloor_resp_le in H. rewrite Qfloor_Z in H.
  unfold round_half_even.
  destruct (Qcompare _ _); [destruct (Z.even _) | |]; lia.
Qed.

Lemma round_half_even_upper (b : Z) (q : Q) :
  (q <= inject_Z b)%Q -> round_half_even q <= b.
Proof.
  intros H. pose proof (Qfloor_resp_le _ _ H) as Hf. rewrite Qfloor_Z in Hf.
  unfold round_half_even. cbv zeta.
  destruct (Qcompare_spec (q - inject_Z (Qfloor q)) (1 # 2)) as [He | Hl | Hg];
    [destruct (Z.even _) | |]; try lia;
    (destruct (Z.eq_dec (Qfloor q) b) as [Heq | Hne]; [| lia]);
    exfalso; rewrite Heq in *; clear Hf Heq; destruct q as [n d];
    unfold Qle in H; unfold Qeq, Qlt, Qminus, Qplus, Qopp, inject_Z in *;
    simpl in *; lia.
Qed.

(** Rounding to one decimal keeps a value inside an interval with integer
    end points. *)
Lemma round_decimal1_bounds (a b : Z) (x : Q) :
  (inject_Z a <= x)%Q -> (x <= inject_Z b)%Q ->
  (inject_Z a <= round_decimal x 1)%Q /\ (round_decimal x 1 <= inject_Z b)%Q.
Proof.
  intros Ha Hb. unfold round_decimal.
  change (Pos.pow 10 (Pos.of_nat 1)) with 10%positive.
  assert (H10 : (0 <= inject_Z 10)%Q) by (unfold Qle; simpl; lia).
  assert (Hlo : (inject_Z (a * 10) <= x * inject_Z 10)%Q).
  { rewrite inject_Z_mult. apply Qmult_le_compat_r; assumption. }
  assert (Hhi : (x * inject_Z 10 <= inject_Z (b * 10))%Q).
  { rewrite inject_Z_mult. apply Qmult_le_compat_r; assumption. }
  apply round_half_even_lower in Hlo. apply round_half_even_upper in Hhi.
  unfold Qle; simpl. lia.
Qed.

(** *** Rounding to binary64 *)

Lemma two_neq_0 : ~ (2 # 1 == 0)%Q.
Proof. discriminate. Qed.

Lemma pow2_pos (e : Z) : (0 < (2 # 1) ^ e)%Q.
Proof. apply Qpower_0_lt. reflexivity. Qed.

Lemma pow2_inject (n : Z) : 0 <= n -> ((2 # 1) ^ n == inject_Z (2 ^ n))%Q.
Proof. intros H. rewrite (Zpower_Qpower 2 n H). reflexivity. Qed.

(** A power of two with a non-positive exponent is the inverse of an
    integer. *)
Lemma pow2_nonpos (e : Z) :
  e <= 0 -> ((2 # 1) ^ e == / inject_Z (2 ^ (- e)))%Q.
Proof.
  intros H. replace e with (- (- e)) at 1 by lia.
  rewrite Qpower_opp, pow2_inject by lia. reflexivity.
Qed.

Lemma ilog2_lower (q : Q) : (0 < q)%Q -> ((2 # 1) ^ ilog2 q <= q)%Q.
Proof.
  intros Hq. unfold ilog2. cbv zeta.
  destruct (Qle_bool _ q) eqn:E; [apply Qle_bool_iff, E |].
  clear E. destruct q as [n d]. cbn [Qnum Qden].
  assert (Hn : 0 < n) by (unfold Qlt in Hq; simpl in Hq; lia).
  pose proof (Z.log2_spec n Hn) as [Hn1 _].
  pose proof (Z.log2_spec (Z.pos d) (Pos2Z.is_pos d)) as [_ Hd2].
  pose proof (Z.log2_nonneg n). pose proof (Z.log2_nonneg (Z.pos d)).
  replace (Z.log2 n - Z.log2 (Z.pos d) - 1)
    with (Z.log2 n - Z.succ (Z.log2 (Z.pos d))) by lia.
  rewrite Qpower_minus by exact two_neq_0.
  rewrite !pow2_inject by lia.
  set (A := 2 ^ Z.log2 n) in *. set (B := 2 ^ Z.succ (Z.log2 (Z.pos d))) in *.
  assert (HB : 0 < B) by lia.
  apply Qle_shift_div_r; [unfold Qlt; simpl; lia |].
  unfold Qle, Qmult, inject_Z; simpl. nia.
Qed.

Lemma ilog2_upper (q : Q) : (0 < q)%Q -> (q < (2 # 1) ^ (ilog2 q + 1))%Q.
Proof.
  intros Hq. unfold ilog2. cbv zeta.
  destruct (Qle_bool _ q) eqn:E.
  - clear E. destruct q as [n d]. cbn [Qnum Qden].
    assert (Hn : 0 < n) by (unfold Qlt in Hq; simpl in Hq; lia).
    pose proof (Z.log2_spec n Hn) as [_ Hn2].
    pose proof (Z.log2_spec (Z.pos d) (Pos2Z.is_pos d)) as [Hd1 _].
    pose proof (Z.log2_nonneg n). pose proof (Z.log2_nonneg (Z.pos d)).
    replace (Z.log2 n - Z.log2 (Z.pos d) + 1)
      with (Z.succ (Z.log2 n) - Z.log2 (Z.pos d)) by lia.
    rewrite Qpower_minus by exact two_neq_0.
    rewrite !pow2_inject by lia.
    set (A := 2 ^ Z.succ (Z.log2 n)) in *. set (B := 2 ^ Z.log2 (Z.pos d)) in *.
    assert (HB : 0 < B) by (subst B; apply Z.pow_pos_nonneg; lia).
    apply Qlt_shift_div_l; [unfold Qlt; simpl; lia |].
    unfold Qlt, Qmult, inject_Z; simpl. nia.
  - replace (Z.log2 (Qnum q) - Z.log2 (Z.pos (Qden q)) - 1 + 1)
      with (Z.log2 (Qnum q) - Z.log2 (Z.pos (Qden q))) by lia.
    apply Qnot_le_lt. intros H. apply Qle_bool_iff in H. congruence.
Qed.

Lemma Qabs_nonneg_eq (q : Q) : (0 <= q)%Q -> Qabs q = q.
Proof.
  destruct q as [n d]. unfold Qle, Qabs; simpl. intros H.
  f_equal. apply Z.abs_eq. lia.
Qed.

Lemma ulp_exponent_nonpos (q : Q) :
  (0 < q)%Q -> (q < inject_Z (2 ^ 53))%Q -> ulp_exponent q <= 0.
Proof.
  intros Hq Hlt. unfold ulp_exponent.
  rewrite Qabs_nonneg_eq by (apply Qlt_le_weak, Hq).
  assert (ilog2 q < 53); [| lia].
  apply (Qpower_lt_compat_l_inv (2 # 1)); [| reflexivity].
  eapply Qle_lt_trans; [apply ilog2_lower, Hq |].
  rewrite pow2_inject by lia. exact Hlt.
Qed.

Lemma round_half_even_error (q : Q) :
  (q - (1 # 2) <= inject_Z (round_half_even q))%Q /\
  (inject_Z (round_half_even q) <= q + (1 # 2))%Q.
Proof.
  pose proof (Qfloor_le q) as Hf1. pose proof (Qlt_floor q) as Hf2.
  unfold round_half_even. cbv zeta.
  set (f := Qfloor q) in *. clearbody f.
  destruct (Qcompare_spec (q - inject_Z f) (1 # 2)) as [He | Hl | Hg];
    [destruct (Z.even f) | |];
    destruct q as [n d];
    unfold Qle, Qlt, Qeq, Qminus, Qplus, Qopp, inject_Z in *; simpl in *;
    split; lia.
Qed.

Lemma round_half_even_near (a b : Z) (q : Q) :
  (inject_Z a - (1 # 2) < q)%Q -> (q < inject_Z b + (1 # 2))%Q ->
  a <= round_half_even q <= b.
Proof.
  intros Ha Hb. destruct (round_half_even_error q) as [H1 H2].
  set (r := round_half_even q) in *. clearbody r.
  destruct q as [n d].
  unfold Qle, Qlt, Qminus, Qplus, Qopp, inject_Z in *; simpl in *.
  split; nia.
Qed.

(** The float nearest to [q] is within half a unit of the last place. *)
Lemma binary64_error (q : Q) :
  (q - (2 # 1) ^ ulp_exponent q * (1 # 2) <= binary64 q)%Q /\
  (binary64 q <= q + (2 # 1) ^ ulp_exponent q * (1 # 2))%Q.
Proof.
  pose proof (pow2_pos (ulp_exponent q)) as HP.
  unfold binary64. destruct (Qeq_bool q (0 # 1)) eqn:E.
  - apply Qeq_bool_iff in E.
    set (P := ((2 # 1) ^ ulp_exponent q)%Q) in *. clearbody P.
    rewrite E. destruct P as [pn pd].
    unfold Qle, Qlt, Qminus, Qplus, Qopp, Qmult in *; simpl in *.
    split; lia.
  - cbv zeta. rewrite Qred_correct.
    destruct (round_half_even_error (q / (2 # 1) ^ ulp_exponent q)) as [H1 H2].
    set (R := round_half_even (q / (2 # 1) ^ ulp_exponent q)) in *. clearbody R.
    set (P := ((2 # 1) ^ ulp_exponent q)%Q) in *.
    assert (HP0 : ~ (P == 0)%Q) by (intros H0; rewrite H0 in HP; discriminate).
    split.
    + apply (Qmult_le_compat_r _ _ P) in H1; [| apply Qlt_le_weak, HP].
      eapply Qle_trans; [| exact H1].
      apply Qle_lteq. right. field. exact HP0.
    + apply (Qmult_le_compat_r _ _ P) in H2; [| apply Qlt_le_weak, HP].
      eapply Qle_trans; [exact H2 |].
      apply Qle_lteq. right. field. exact HP0.
Qed.

(** Below 64 the unit of the last place is at most [2 ^ -47]. *)
Lemma binary64_near (q : Q) :
  (0 < q)%Q -> (q < 64)%Q ->
  (q - (1 # 2 ^ 48) <= binary64 q)%Q /\ (binary64 q <= q + (1 # 2 ^ 48))%Q.
Proof.
  intros Hq H64.
  assert (He : ulp_exponent q <= -47).
  { unfold ulp_exponent. rewrite Qabs_nonneg_eq by (apply Qlt_le_weak, Hq).
    assert (ilog2 q < 6); [| lia].
    apply (Qpower_lt_compat_l_inv (2 # 1)); [| reflexivity].
    eapply Qle_lt_trans; [apply ilog2_lower, Hq | exact H64]. }
  assert (HP : ((2 # 1) ^ ulp_exponent q * (1 # 2) <= 1 # 2 ^ 48)%Q).
  { change (1 # 2 ^ 48)%Q with ((2 # 1) ^ (-47) * (1 # 2))%Q.
    apply Qmult_le_compat_r; [| discriminate].
    apply Qpower_le_compat_l; [exact He | discriminate]. }
  destruct (binary64_error q) as [H1 H2]. split.
  - eapply Qle_trans; [| exact H1].
    apply Qplus_le_r, Qopp_le_compat, HP.
  - eapply Qle_trans; [exact H2 |]. apply Qplus_le_r, HP.
Qed.

Lemma binary64_nonpos (q : Q) : (q <= 0)%Q -> (binary64 q <= 0)%Q.
Proof.
  intros Hq. unfold binary64.
  destruct (Qeq_bool q (0 # 1)); [apply Qle_refl |].
  cbv zeta. rewrite Qred_correct.
  pose proof (pow2_pos (ulp_exponent q)) as HP.
  assert (HR : round_half_even (q / (2 # 1) ^ ulp_exponent q) <= 0).
  { apply round_half_even_upper.
    apply Qle_shift_div_r; [exact HP |]. rewrite Qmult_0_l. exact Hq. }
  set (R := round_half_even _) in *. clearbody R.
  rewrite <- (Qmult_0_l ((2 # 1) ^ ulp_exponent q)).
  apply Qmult_le_compat_r; [| apply Qlt_le_weak, HP].
  rewrite (Zle_Qle R 0) in HR. exact HR.
Qed.

(** At and above [2 ^ 53] the nearest float is at least [2 ^ 53]. *)
Lemma binary64_large (q : Q) :
  (inject_Z (2 ^ 53) <= q)%Q -> (inject_Z (2 ^ 53) <= binary64 q)%Q.
Proof.
  intros Hq.
  assert (H0 : (0 < q)%Q) by (eapply Qlt_le_trans; [| exact Hq]; reflexivity).
  unfold binary64. destruct (Qeq_bool q (0 # 1)) eqn:E.
  { apply Qeq_bool_iff in E. rewrite E in H0. discriminate. }
  cbv zeta. rewrite Qred_correct.
  assert (Hl : 53 <= ilog2 q).
  { assert (53 < ilog2 q + 1); [| lia].
    apply (Qpower_lt_compat_l_inv (2 # 1)); [| reflexivity].
    eapply Qle_lt_trans; [| apply ilog2_upper, H0].
    rewrite pow2_inject by lia. exact Hq. }
  assert (He : ulp_exponent q = ilog2 q - 52).
  { unfold ulp_exponent. rewrite Qabs_nonneg_eq by (apply Qlt_le_weak, H0). lia. }
  rewrite He. set (e := ilog2 q - 52) in *.
  pose proof (pow2_pos e) as HP.
  assert (HR : 2 ^ 52 <= round_half_even (q / (2 # 1) ^ e)).
  { apply round_half_even_lower. apply Qle_shift_div_l; [exact HP |].
    eapply Qle_trans; [| apply ilog2_lower, H0].
    rewrite <- pow2_inject by lia.
    rewrite <- Qpower_plus by exact two_neq_0.
    replace (52 + e) with (ilog2 q) by (subst e; lia). apply Qle_refl. }
  set (R := round_half_even _) in *. clearbody R.
  apply Qle_trans with (inject_Z (2 ^ 52) * (2 # 1) ^ e)%Q.
  - change (inject_Z (2 ^ 53)) with (inject_Z (2 ^ 52) * (2 # 1) ^ 1)%Q.
    apply Qmult_le_l; [reflexivity |].
    apply Qpower_le_compat_l; [subst e; lia | discriminate].
  - apply Qmult_le_compat_r; [| apply Qlt_le_weak, HP].
    rewrite <- Zle_Qle. exact HR.
Qed.

Lemma binary64_zero (q : Q) : (q == 0)%Q -> binary64 q = (0 # 1).
Proof.
  intros H. unfold binary64.
  apply Qeq_bool_iff in H. rewrite H. reflexivity.
Qed.

(** Below [2 ^ 53] rounding to the nearest float crosses no integer. *)
Lemma binary64_between (a b : Z) (q : Q) :
  (0 < q)%Q -> (q < inject_Z (2 ^ 53))%Q ->
  (inject_Z a <= q)%Q -> (q <= inject_Z b)%Q ->
  (inject_Z a <= binary64 q)%Q /\ (binary64 q <= inject_Z b)%Q.
Proof.
  intros Hq Hlt Haq Hqb. unfold binary64.
  destruct (Qeq_bool q (0 # 1)) eqn:E.
  { apply Qeq_bool_iff in E. rewrite E in Hq. discriminate. }
  cbv zeta. rewrite Qred_correct.
  pose proof (ulp_exponent_nonpos q Hq Hlt) as He.
  set (e := ulp_exponent q) in *.
  set (P := 2 ^ (- e)).
  assert (HP : 0 < P) by (subst P; apply Z.pow_pos_nonneg; lia).
  assert (HPq : (0 < inject_Z P)%Q) by (rewrite <- (Zlt_Qlt 0); exact HP).
  assert (Hpow : ((2 # 1) ^ e == / inject_Z P)%Q) by (apply pow2_nonpos, He).
  assert (Hdiv : (q / (2 # 1) ^ e == q * inject_Z P)%Q).
  { rewrite Hpow. unfold Qdiv. rewrite Qinv_involutive. reflexivity. }
  assert (Hlo : a * P <= round_half_even (q / (2 # 1) ^ e)).
  { apply round_half_even_lower. rewrite Hdiv, inject_Z_mult.
    apply Qmult_le_compat_r; [exact Haq | apply Qlt_le_weak, HPq]. }
  assert (Hhi : round_half_even (q / (2 # 1) ^ e) <= b * P).
  { apply round_half_even_upper. rewrite Hdiv, inject_Z_mult.
    apply Qmult_le_compat_r; [exact Hqb | apply Qlt_le_weak, HPq]. }
  set (R := round_half_even (q / (2 # 1) ^ e)) in *.
  split; rewrite Hpow.
  - apply Qle_shift_div_l; [exact HPq |].
    rewrite <- inject_Z_mult, <- Zle_Qle. exact Hlo.
  - apply Qle_shift_div_r; [exact HPq |].
    rewrite <- inject_Z_mult, <- Zle_Qle. exact Hhi.
Qed.

Lemma binary64_le_int (b : Z) (q : Q) :
  0 <= b < 2 ^ 53 -> (q <= inject_Z b)%Q -> (binary64 q <= inject_Z b)%Q.
Proof.
  intros Hb Hqb. destruct (Qlt_le_dec 0 q) as [Hq | Hq].
  - apply (binary64_between (Qfloor q) b q); try assumption.
    + eapply Qle_lt_trans; [exact Hqb |]. rewrite <- Zlt_Qlt. lia.
    + apply Qfloor_le.
  - eapply Qle_trans; [apply binary64_nonpos, Hq |].
    rewrite <- (Zle_Qle 0). lia.
Qed.

Lemma binary64_ge_int (a : Z) (q : Q) :
  0 <= a <= 2 ^ 53 -> (inject_Z a <= q)%Q -> (inject_Z a <= binary64 q)%Q.
Proof.
  intros Ha Haq. destruct (Qlt_le_dec q (inject_Z (2 ^ 53))) as [Hlt | Hge].
  - assert (H0 : (0 <= q)%Q).
    { eapply Qle_trans; [| exact Haq]. rewrite <- (Zle_Qle 0). lia. }
    apply Qle_lt_or_eq in H0 as [Hq | Hq].
    + apply (binary64_between a (2 ^ 53) q); try assumption.
      apply Qlt_le_weak, Hlt.
    + symmetry in Hq. rewrite (binary64_zero q Hq). rewrite <- Hq. exact Haq.
  - eapply Qle_trans; [| apply binary64_large, Hge].
    rewrite <- Zle_Qle. lia.
Qed.

(** Rounding to the nearest float does not cross an integer below
    [2 ^ 53]: such an integer is itself a float. *)
Lemma binary64_int_bounds (a b : Z) (q : Q) :
  0 <= a -> b < 2 ^ 53 ->
  (inject_Z a <= q)%Q -> (q <= inject_Z b)%Q ->
  (inject_Z a <= binary64 q)%Q /\ (binary64 q <= inject_Z b)%Q.
Proof.
  intros Ha Hb Haq Hqb.
  assert (Hab : a <= b).
  { rewrite Zle_Qle. eapply Qle_trans; eassumption. }
  split; [apply binary64_ge_int | apply binary64_le_int]; try assumption; lia.
Qed.

(** [round(x, ndigits)] stays between integer bounds. *)
Lemma round_bounds (a b : Z) (x : Q) (ndigits : nat) :
  0 <= a -> b < 2 ^ 53 ->
  (inject_Z a <= x)%Q -> (x <= inject_Z b)%Q ->
  (inject_Z a <= round x ndigits)%Q /\ (round x ndigits <= inject_Z b)%Q.
Proof.
  intros Ha Hb Hax Hxb. unfold round, round_decimal.
  destruct ndigits as [| n].
  - apply binary64_int_bounds; try assumption.
    + rewrite <- Zle_Qle. apply round_half_even_lower, Hax.
    + rewrite <- Zle_Qle. apply round_half_even_upper, Hxb.
  - set (scale := (10 ^ Pos.of_nat (S n))%positive).
    assert (Hs : (0 <= inject_Z (Z.pos scale))%Q) by (unfold Qle; simpl; lia).
    assert (Hlo : a * Z.pos scale
                  <= round_half_even (x * inject_Z (Z.pos scale))).
    { apply round_half_even_lower. rewrite inject_Z_mult.
      apply Qmult_le_compat_r; assumption. }
    assert (Hhi : round_half_even (x * inject_Z (Z.pos scale))
                  <= b * Z.pos scale).
    { apply round_half_even_upper. rewrite inject_Z_mult.
      apply Qmult_le_compat_r; assumption. }
    apply binary64_int_bounds; try assumption; unfold Qle; simpl; lia.
Qed.

(** [round(occ / total * 100, ndigits)] is a percentage. *)
Lemma percentage_bounds (occ total : Z) (ndigits : nat) :
  0 <= occ <= total -> 1 <= total ->
  let rate := round (float_mul (binary64 (inject_Z occ / inject_Z total))
                               (100 # 1)) ndigits in
  (0 <= rate)%Q /\ (rate <= 100)%Q.
Proof.
  intros Hocc Htot.
  destruct (binary64_int_bounds 0 1 (inject_Z occ / inject_Z total))
    as [Hq0 Hq1]; try lia.
  { destruct total as [| p | p]; try lia.
    unfold Qle, Qdiv, Qmult, Qinv, inject_Z; cbn. nia. }
  { destruct total as [| p | p]; try lia.
    unfold Qle, Qdiv, Qmult, Qinv, inject_Z; cbn. nia. }
  set (q := binary64 (inject_Z occ / inject_Z total)) in *.
  destruct (binary64_int_bounds 0 100 (q * (100 # 1))) as [Hm0 Hm1];
    try lia.
  { apply Qmult_le_0_compat; [exact Hq0 | discriminate]. }
  { change (inject_Z 100) with (inject_Z 1 * (100 # 1))%Q.
    apply Qmult_le_compat_r; [exact Hq1 | discriminate]. }
  apply (round_bounds 0 100); try lia; assumption.
Qed.

End PyFacts.

(** ** Properties of the sensor simulator *)

Module SensoresSpec.
Import Py Sensores PyFacts.

Lemma bind_returns {A B : Type} (r : result A) (k : A -> result B) (b : B) :
  r ≫= k = Returns b -> exists a, r = Returns a /\ k a = Returns b.
Proof. destruct r as [a | e]; [eauto | discriminate]. Qed.

Lemma getitem_returns (bays : gmap string Bay) (k : string) (b : Bay) :
  getitem bays k = Returns b <-> bays !! k = Some b.
Proof.
  unfold getitem. destruct (bays !! k); split; intros H;
    try discriminate; congruence.
Qed.

Lemma generate_event_inv s bid now delta r ev s' :
  generate_event s bid now delta r = Returns (ev, s') ->
  exists bay, self_bays s !! bid = Some bay /\
              ev = snapshot (drift bay delta r) now /\
              s' = set_bays s (<[bid := drift bay delta r]> (self_bays s)).
Proof.
  unfold generate_event. intros H.
  apply bind_returns in H as (bay & Hget & Hret).
  apply getitem_returns in Hget. inversion Hret. eauto.
Qed.

Lemma choice_returns {A : Type} (l : list A) (draw : nat) (a : A) :
  choice l draw = Returns a -> a ∈ l.
Proof.
  unfold choice. destruct (nth_error _ _) eqn:E; [| discriminate].
  intros [= <-]. apply list_elem_of_In. eapply nth_error_In, E.
Qed.

Lemma choice_nonempty {A : Type} (l : list A) (draw : nat) :
  l <> [] -> exists a, choice l draw = Returns a.
Proof.
  intros Hne. unfold choice.
  destruct (nth_error _ _) eqn:E; [eauto |].
  apply nth_error_None in E.
  assert (0 < List.length l)%nat by (destruct l; [congruence | simpl; lia]).
  pose proof (Nat.mod_upper_bound draw (List.length l)). lia.
Qed.

Lemma elem_of_keys (bays : gmap string Bay) (k : string) :
  k ∈ keys bays <-> is_Some (bays !! k).
Proof.
  unfold keys. rewrite list_elem_of_fmap. split.
  - intros [[k' b] [-> Hin]]. apply elem_of_map_to_list in Hin. eauto.
  - intros [b Hb]. exists (k, b). split; [reflexivity |].
    apply elem_of_map_to_list. exact Hb.
Qed.

Lemma simulate_vehicle_movement_inv s draw bid s' :
  simulate_vehicle_movement s draw = Returns (bid, s') ->
  exists bay, self_bays s !! bid = Some bay /\
              s' = set_bays s (<[bid := flip bay]> (self_bays s)).
Proof.
  unfold simulate_vehicle_movement. intros H.
  apply bind_returns in H as (k & Hch & H).
  apply bind_returns in H as (bay & Hget & Hret).
  apply getitem_returns in Hget. inversion Hret; subst. eauto.
Qed.

(** On a simulator with at least one bay the movement always returns. *)
Lemma simulate_vehicle_movement_total s draw :
  self_bays s <> ∅ ->
  exists bid bay, self_bays s !! bid = Some bay /\
    simulate_vehicle_movement s draw =
      Returns (bid, set_bays s (<[bid := flip bay]> (self_bays s))).
Proof.
  intros Hne. unfold simulate_vehicle_movement.
  destruct (choice_nonempty (keys (self_bays s)) draw) as [bid Hbid].
  { unfold keys. intros Hnil. apply fmap_nil_inv in Hnil.
    apply map_to_list_empty_iff in Hnil. contradiction. }
  pose proof (choice_returns _ _ _ Hbid) as Hin.
  apply elem_of_keys in Hin as [bay Hbay].
  exists bid, bay. split; [exact Hbay |].
  rewrite Hbid. cbn. unfold getitem. rewrite Hbay. reflexivity.
Qed.

(** *** Invariants of the drift logic *)

Lemma drift_inv (b : Bay) (delta r : Q) : bay_inv b -> bay_inv (drift b delta r).
Proof.
  intros (Hlo & Hhi & Hb). unfold bay_inv, drift; cbn.
  destruct (clamp_bounds (15 # 1) (35 # 1)
              (round (float_add (temperature_c b) delta) 1)) as [H1 H2];
    [unfold Qle; simpl; lia |].
  repeat split; try assumption; destruct (flt r _); lia.
Qed.

Lemma drift_battery (b : Bay) (delta r : Q) :
  20 <= battery_pct b ->
  battery_pct (drift b delta r) = battery_pct b \/
  battery_pct (drift b delta r) = battery_pct b - 1.
Proof. intros H. unfold drift; cbn. destruct (flt r _); lia. Qed.

Lemma flip_inv (b : Bay) : bay_inv b -> bay_inv (flip b).
Proof. intros H. exact H. Qed.

Lemma init_bay_inv pid rnd lvl bay :
  valid_draw (rnd lvl bay) -> bay_inv (init_bay pid rnd lvl bay).
Proof.
  intros (Hlo & Hhi & Hb). unfold bay_inv, init_bay; cbn.
  destruct (round_bounds 18 28 (draw_uniform (rnd lvl bay)) 1) as [H1 H2];
    try assumption; try lia.
  split; [| split; [| lia]].
  - eapply Qle_trans; [| exact H1]. unfold Qle; simpl; lia.
  - eapply Qle_trans; [exact H2 |]. unfold Qle; simpl; lia.
Qed.

Lemma foldl_invariant {A B : Type} (P : A -> Prop) (f : A -> B -> A)
    (l : list B) (a : A) :
  P a -> (forall a b, P a -> P (f a b)) -> P (foldl f a l).
Proof.
  intros Ha Hf. revert a Ha.
  induction l as [| b l IH]; intros a Ha; cbn; [exact Ha |].
  apply IH, Hf, Ha.
Qed.

Lemma _initialize_bays_inv pid levels bays_per_level rnd :
  (forall l b, valid_draw (rnd l b)) ->
  map_Forall (fun _ b => bay_inv b)
             (_initialize_bays pid levels bays_per_level rnd).
Proof.
  intros Hrnd. unfold _initialize_bays.
  apply foldl_invariant; [apply map_Forall_empty |].
  intros bays lvl Hbays.
  apply foldl_invariant; [exact Hbays |].
  intros bays' bay Hbays'.
  apply map_Forall_insert_2; [apply init_bay_inv, Hrnd | exact Hbays'].
Qed.

Lemma step_inv s s' :
  step s s' ->
  map_Forall (fun _ b => bay_inv b) (self_bays s) ->
  map_Forall (fun _ b => bay_inv b) (self_bays s').
Proof.
  intros Hstep Hinv. destruct Hstep as [s bid now delta r ev s' H | s draw bid s' H].
  - apply generate_event_inv in H as (bay & Hbay & _ & ->). cbn.
    apply map_Forall_insert_2; [| exact Hinv].
    apply drift_inv. exact (Hinv _ _ Hbay).
  - apply simulate_vehicle_movement_inv in H as (bay & Hbay & ->). cbn.
    apply map_Forall_insert_2; [| exact Hinv].
    apply flip_inv. exact (Hinv _ _ Hbay).
Qed.

Lemma reachable_inv s :
  reachable s -> map_Forall (fun _ b => bay_inv b) (self_bays s).
Proof.
  induction 1 as [pid levels bpl rnd Hrnd | s s' _ IH Hstep].
  - cbn. apply _initialize_bays_inv, Hrnd.
  - eapply step_inv; eassumption.
Qed.

Lemma rtc_step_reachable s s' : reachable s -> rtc step s s' -> reachable s'.
Proof.
  intros Hs Hrun. induction Hrun as [| s s1 s2 Hstep _ IH]; [exact Hs |].
  apply IH. eapply reach_step; eassumption.
Qed.

(** *** The key set is fixed *)

Lemma step_dom s s' : step s s' -> dom (self_bays s') = dom (self_bays s).
Proof.
  intros [s0 bid now delta r ev s1 H | s0 draw bid s1 H].
  - apply generate_event_inv in H as (bay & Hbay & _ & ->). cbn.
    apply dom_insert_lookup_L. eauto.
  - apply simulate_vehicle_movement_inv in H as (bay & Hbay & ->). cbn.
    apply dom_insert_lookup_L. eauto.
Qed.

(** *** The battery of a bay along a run *)

Lemma step_battery s s' bid bay :
  step s s' ->
  map_Forall (fun _ b => bay_inv b) (self_bays s) ->
  self_bays s !! bid = Some bay ->
  exists bay', self_bays s' !! bid = Some bay' /\
               battery_pct bay' <= battery_pct bay.
Proof.
  intros Hstep Hinv Hbay.
  destruct Hstep as [s k now delta r ev s' H | s draw k s' H].
  - apply generate_event_inv in H as (b & Hb & _ & ->). cbn.
    destruct (decide (k = bid)) as [-> | Hne].
    + rewrite lookup_insert_eq. eexists; split; [reflexivity |].
      assert (b = bay) as -> by congruence.
      destruct (Hinv _ _ Hbay) as (_ & _ & Hbat).
      destruct (drift_battery bay delta r) as [-> | ->]; lia.
    + rewrite lookup_insert_ne by exact Hne. eexists; split; [exact Hbay | lia].
  - apply simulate_vehicle_movement_inv in H as (b & Hb & ->). cbn.
    destruct (decide (k = bid)) as [-> | Hne].
    + rewrite lookup_insert_eq. eexists; split; [reflexivity |].
      assert (b = bay) as -> by congruence. cbn. lia.
    + rewrite lookup_insert_ne by exact Hne. eexists; split; [exact Hbay | lia].
Qed.

Lemma run_battery s s' bid bay :
  rtc step s s' ->
  map_Forall (fun _ b => bay_inv b) (self_bays s) ->
  self_bays s !! bid = Some bay ->
  exists bay', self_bays s' !! bid = Some bay' /\
               battery_pct bay' <= battery_pct bay.
Proof.
  intros Hrun. revert bay.
  induction Hrun as [s | s s1 s2 Hstep _ IH]; intros bay Hinv Hbay.
  - eexists; split; [exact Hbay | lia].
  - destruct (step_battery _ _ _ _ Hstep Hinv Hbay) as (b1 & Hb1 & Hle1).
    destruct (IH b1 (step_inv _ _ Hstep Hinv) Hb1) as (b2 & Hb2 & Hle2).
    eexists; split; [exact Hb2 | lia].
Qed.

(** *** The claims about the simulator *)

(** C1.  [get_parking_status] has no guard for an empty bay set: there
    the division [occupied / total] raises [ZeroDivisionError] (first
    conjunct, at [ParkingSensorSimulator(levels=0)]); on every non-empty
    bay set it returns [occupancy_rate = round(occupied/total*100, 1)],
    the quotient, the product and the rounding being those of float
    arithmetic (second conjunct, which also covers the empty case). *)
Theorem get_parking_status_empty_raises :
  (forall pid bays_per_level rnd,
      get_parking_status (__init__ pid 0 bays_per_level rnd)
      = Raises ZeroDivisionError) /\
  (forall self,
      let total := Z.of_nat (size (self_bays self)) in
      let occ := Z.of_nat (List.length
                   (List.filter occupied (values (self_bays self)))) in
      get_parking_status self =
        if decide (self_bays self = ∅) then Raises ZeroDivisionError
        else Returns {| st_total_bays := total;
                        st_occupied := occ;
                        st_free := total - occ;
                        st_occupancy_rate :=
                          round (float_mul
                                   (binary64 (inject_Z occ / inject_Z total))
                                   (100 # 1)) 1 |}).
Proof.
  split.
  - intros pid bpl rnd. reflexivity.
  - intros self total occ. unfold get_parking_status, truediv.
    fold total. fold occ.
    destruct (decide (self_bays self = ∅)) as [He | Hne].
    + assert (total = 0) as -> by (subst total; rewrite He, map_size_empty; lia).
      reflexivity.
    + assert (total <> 0) as Ht.
      { subst total. intros H0. apply Hne, map_size_empty_iff. lia. }
      apply Z.eqb_neq in Ht. rewrite Ht. reflexivity.
Qed.

(** C3.  On a reachable simulator, a [generate_event] call reports a
    battery level that is the stored level or the stored level minus one,
    stores what it reports, and every later event for the same bay, after
    any run of simulator operations, reports at most that level. *)
Theorem battery_non_increasing s bid now delta r ev s1 :
  reachable s ->
  generate_event s bid now delta r = Returns (ev, s1) ->
  exists bay bay1,
    self_bays s !! bid = Some bay /\
    self_bays s1 !! bid = Some bay1 /\
    battery_pct bay1 = m_battery_pct (ev_metrics ev) /\
    (battery_pct bay1 = battery_pct bay \/
     battery_pct bay1 = battery_pct bay - 1) /\
    forall s2 now' delta' r' ev' s3,
      rtc step s1 s2 ->
      generate_event s2 bid now' delta' r' = Returns (ev', s3) ->
      m_battery_pct (ev_metrics ev') <= m_battery_pct (ev_metrics ev).
Proof.
  intros Hreach Hcall.
  pose proof (reachable_inv _ Hreach) as Hinv.
  assert (Hstep : step s s1) by (eapply step_event; exact Hcall).
  pose proof (step_inv _ _ Hstep Hinv) as Hinv1.
  apply generate_event_inv in Hcall as (bay & Hbay & -> & ->).
  exists bay, (drift bay delta r). cbn [self_bays set_bays].
  rewrite lookup_insert_eq.
  destruct (Hinv _ _ Hbay) as (_ & _ & Hbat).
  repeat split; try reflexivity; try assumption.
  - apply drift_battery. lia.
  - intros s2 now' delta' r' ev' s3 Hrun Hcall'.
    assert (Hstep' : step s2 s3) by (eapply step_event; exact Hcall').
    assert (Hrun' : rtc step (set_bays s (<[bid:=drift bay delta r]> (self_bays s))) s3)
      by (eapply rtc_r; eassumption).
    apply generate_event_inv in Hcall' as (bay2 & Hbay2 & -> & ->).
    cbn [self_bays set_bays] in Hrun'.
    edestruct (run_battery _ _ bid (drift bay delta r) Hrun' Hinv1)
      as (bay3 & Hbay3 & Hle).
    { cbn [self_bays set_bays]. apply lookup_insert_eq. }
    cbn [self_bays set_bays] in Hbay3. rewrite lookup_insert_eq in Hbay3.
    injection Hbay3 as <-. exact Hle.
Qed.

(** The default simulator is a reachable state. *)
Lemma sim0_reachable : reachable Examples.sim0.
Proof.
  apply reach_init. intros l b.
  unfold valid_draw, Examples.rnd0; cbn [draw_uniform draw_randint].
  split; [vm_compute; discriminate |].
  split; [vm_compute; discriminate | lia].
Qed.

(** An event for bay L1-A-001 of the default simulator whose battery draw
    triggers the decrement. *)
Lemma battery_non_increasing_witness :
  exists ev s1 bay bay1,
    generate_event Examples.sim0 "L1-A-001" Examples.now0 (1 # 4) (1 # 20)
    = Returns (ev, s1) /\
    self_bays Examples.sim0 !! "L1-A-001" = Some bay /\
    self_bays s1 !! "L1-A-001" = Some bay1 /\
    battery_pct bay1 = m_battery_pct (ev_metrics ev) /\
    (battery_pct bay1 = battery_pct bay \/
     battery_pct bay1 = battery_pct bay - 1).
Proof.
  eexists _, _.
  assert (Hcall : generate_event Examples.sim0 "L1-A-001" Examples.now0
                    (1 # 4) (1 # 20) = Returns (_, _)) by (vm_compute; reflexivity).
  destruct (battery_non_increasing _ _ _ _ _ _ _ sim0_reachable Hcall)
    as (bay & bay1 & H1 & H2 & H3 & H4 & _).
  exists bay, bay1. repeat split; assumption.
Defined.

(** C4.  On a reachable simulator every stored bay is within the bounds
    of the data model; every event [generate_event] produces there is
    within them; and the state left by [generate_event] and by
    [simulate_vehicle_movement] is within them again. *)
Theorem bounds_preserved s :
  reachable s ->
  map_Forall (fun _ b => bay_in_bounds b) (self_bays s) /\
  (forall bid now delta r ev s',
      generate_event s bid now delta r = Returns (ev, s') ->
      event_in_bounds ev /\
      map_Forall (fun _ b => bay_in_bounds b) (self_bays s')) /\
  (forall draw bid s',
      simulate_vehicle_movement s draw = Returns (bid, s') ->
      map_Forall (fun _ b => bay_in_bounds b) (self_bays s')).
Proof.
  assert (Hweak : forall m : gmap string Bay,
             map_Forall (fun _ b => bay_inv b) m ->
             map_Forall (fun _ b => bay_in_bounds b) m).
  { intros m Hm k b Hk. destruct (Hm k b Hk) as (H1 & H2 & H3).
    repeat split; try assumption; lia. }
  intros Hreach. pose proof (reachable_inv _ Hreach) as Hinv.
  split; [apply Hweak, Hinv |]. split.
  - intros bid now delta r ev s' Hcall. split.
    + apply generate_event_inv in Hcall as (bay & Hbay & -> & _).
      destruct (drift_inv bay delta r (Hinv _ _ Hbay)) as (H1 & H2 & H3).
      repeat split; try assumption; cbn [snapshot ev_metrics m_battery_pct]; lia.
    + apply Hweak. eapply step_inv; [| exact Hinv].
      eapply step_event; exact Hcall.
  - intros draw bid s' Hcall.
    apply Hweak. eapply step_inv; [| exact Hinv].
    eapply step_move; exact Hcall.
Qed.

(** The default simulator and an event for its last bay. *)
Lemma bounds_preserved_witness :
  map_Forall (fun _ b => bay_in_bounds b) (self_bays Examples.sim0) /\
  exists ev s',
    generate_event Examples.sim0 "L2-A-010" Examples.now0 (-1 # 2) (1 # 20)
    = Returns (ev, s') /\
    event_in_bounds ev /\
    map_Forall (fun _ b => bay_in_bounds b) (self_bays s').
Proof.
  destruct (bounds_preserved Examples.sim0 sim0_reachable) as (H0 & Hev & _).
  split; [exact H0 |].
  eexists _, _.
  assert (Hcall : generate_event Examples.sim0 "L2-A-010" Examples.now0
                    (-1 # 2) (1 # 20) = Returns (_, _)) by (vm_compute; reflexivity).
  split; [exact Hcall |]. exact (Hev _ _ _ _ _ _ Hcall).
Defined.

(** C7.  [generate_event(bay_id)] leaves the occupied flag of every bay
    and the whole of every other bay as it was;
    [simulate_vehicle_movement] returns the id of a stored bay, negates
    the occupied flag of that bay, keeps its other fields, and leaves
    every other bay as it was. *)
Theorem occupied_changes_only_by_movement self :
  (forall bid now delta r ev s',
      generate_event self bid now delta r = Returns (ev, s') ->
      (forall k b, self_bays self !! k = Some b ->
         exists b', self_bays s' !! k = Some b' /\ occupied b' = occupied b) /\
      (forall k, k <> bid -> self_bays s' !! k = self_bays self !! k)) /\
  (forall draw bid s',
      simulate_vehicle_movement self draw = Returns (bid, s') ->
      (exists b b',
         self_bays self !! bid = Some b /\ self_bays s' !! bid = Some b' /\
         occupied b' = negb (occupied b) /\
         bay_id b' = bay_id b /\ parking_id b' = parking_id b /\
         level b' = level b /\ temperature_c b' = temperature_c b /\
         battery_pct b' = battery_pct b) /\
      (forall k, k <> bid -> self_bays s' !! k = self_bays self !! k)).
Proof.
  split.
  - intros bid now delta r ev s' Hcall.
    apply generate_event_inv in Hcall as (bay & Hbay & _ & ->).
    cbn [self_bays set_bays]. split.
    + intros k b Hk. destruct (decide (bid = k)) as [<- | Hne].
      * rewrite lookup_insert_eq. eexists; split; [reflexivity |].
        assert (b = bay) as -> by congruence. reflexivity.
      * rewrite lookup_insert_ne by exact Hne. eauto.
    + intros k Hne. apply lookup_insert_ne. congruence.
  - intros draw bid s' Hcall.
    apply simulate_vehicle_movement_inv in Hcall as (bay & Hbay & ->).
    cbn [self_bays set_bays]. split.
    + exists bay, (flip bay). rewrite lookup_insert_eq.
      repeat split; try reflexivity. exact Hbay.
    + intros k Hne. apply lookup_insert_ne. congruence.
Qed.

(** A movement on the default simulator. *)
Lemma occupied_changes_only_by_movement_witness :
  exists bid s' b b',
    simulate_vehicle_movement Examples.sim0 7 = Returns (bid, s') /\
    self_bays Examples.sim0 !! bid = Some b /\
    self_bays s' !! bid = Some b' /\
    occupied b' = negb (occupied b).
Proof.
  eexists _, _.
  assert (Hcall : simulate_vehicle_movement Examples.sim0 7 = Returns (_, _))
    by (vm_compute; reflexivity).
  destruct (occupied_changes_only_by_movement Examples.sim0) as [_ Hmove].
  destruct (Hmove _ _ _ Hcall) as [(b & b' & H1 & H2 & H3 & _) _].
  exists b, b'. repeat split; assumption.
Defined.

(** C9.  For every event and every behaviour of the broker,
    [publish_event] returns a boolean and raises nothing: [True] exactly
    when the send and the bounded wait for the acknowledgment complete,
    [False] exactly when one of them fails with a broker or network
    error. *)
Theorem publish_event_returns_boolean producer ev :
  exists ok, publish_event producer (PyEvent ev) = Returns ok /\
    (ok = true <->
     wait_on_metadata producer = Done () /\ append producer ev = Done () /\
     future_get producer ev = Done ()) /\
    (ok = false <->
     exists msg, wait_on_metadata producer = Failed msg \/
                 append producer ev = Failed msg \/
                 future_get producer ev = Failed msg).
Proof.
  unfold publish_event, send, value_serializer.
  destruct (wait_on_metadata producer) as [[] | m1]; cbn.
  - destruct (append producer ev) as [[] | m2]; cbn.
    + destruct (future_get producer ev) as [[] | m3]; cbn.
      * exists true. split; [reflexivity |]. split; [tauto |].
        split; [discriminate |].
        intros (msg & [H | [H | H]]); discriminate.
      * exists false. split; [reflexivity |].
        split; [split; [discriminate | intros (_ & _ & H); discriminate] |].
        split; [eauto | reflexivity].
    + exists false. split; [reflexivity |].
      split; [split; [discriminate | intros (_ & H & _); discriminate] |].
      split; [eauto | reflexivity].
  - exists false. split; [reflexivity |].
    split; [split; [discriminate | intros (H & _); discriminate] |].
    split; [eauto | reflexivity].
Qed.

(** An acknowledged send, an acknowledgment that times out, and a broker
    that is down. *)
Lemma publish_event_returns_boolean_witness :
  publish_event Examples.producer_ok (PyEvent Examples.event0)
  = Returns true /\
  publish_event Examples.producer_timeout (PyEvent Examples.event0)
  = Returns false /\
  publish_event Examples.producer_down (PyEvent Examples.event0)
  = Returns false.
Proof.
  split; [| split].
  - destruct (publish_event_returns_boolean Examples.producer_ok
                Examples.event0) as (ok & -> & Ht & _).
    f_equal. apply Ht. repeat split.
  - destruct (publish_event_returns_boolean Examples.producer_timeout
                Examples.event0) as (ok & -> & _ & Hf).
    f_equal. apply Hf. eexists. right. right. reflexivity.
  - destruct (publish_event_returns_boolean Examples.producer_down
                Examples.event0) as (ok & -> & _ & Hf).
    f_equal. apply Hf. eexists. left. reflexivity.
Defined.

(** The client waits for the metadata before it runs the serializer: with
    the broker down, [publish_event] answers [False] whatever it is
    handed. *)
Lemma send_waits_for_metadata_first producer v msg :
  wait_on_metadata producer = Failed msg ->
  publish_event producer v = Returns false.
Proof. intros H. unfold publish_event, send. rewrite H. reflexivity. Qed.

(** Movement followed by event generation, on any simulator that has a
    bay. *)
Lemma movement_then_event s draw now delta r :
  self_bays s <> ∅ ->
  exists bid s1 ev s2,
    simulate_vehicle_movement s draw = Returns (bid, s1) /\
    bid ∈ keys (self_bays s) /\
    dom (self_bays s1) = dom (self_bays s) /\
    generate_event s1 bid now delta r = Returns (ev, s2) /\
    dom (self_bays s2) = dom (self_bays s).
Proof.
  intros Hne.
  destruct (simulate_vehicle_movement_total s draw Hne) as (bid & bay & Hbay & Hmove).
  pose proof (step_dom _ _ (step_move _ _ _ _ Hmove)) as Hdom1.
  set (s1 := set_bays s (<[bid := flip bay]> (self_bays s))) in *.
  assert (Hcall : generate_event s1 bid now delta r =
            Returns (snapshot (drift (flip bay) delta r) now,
                     set_bays s1 (<[bid := drift (flip bay) delta r]> (self_bays s1)))).
  { unfold generate_event, getitem. subst s1. cbn [self_bays set_bays].
    rewrite lookup_insert_eq. reflexivity. }
  pose proof (step_dom _ _ (step_event _ _ _ _ _ _ _ Hcall)) as Hdom2.
  exists bid, s1, (snapshot (drift (flip bay) delta r) now),
    (set_bays s1 (<[bid := drift (flip bay) delta r]> (self_bays s1))).
  split; [exact Hmove |]. split; [apply elem_of_keys; eauto |].
  split; [exact Hdom1 |]. split; [exact Hcall |].
  etransitivity; [exact Hdom2 | exact Hdom1].
Qed.

(** C10.  On a reachable simulator with at least one bay,
    [simulate_vehicle_movement] returns a key of the bay map, the
    [generate_event] call the run loop makes next on that key returns,
    and no run of simulator operations changes the key set. *)
Theorem movement_returns_key s :
  reachable s ->
  self_bays s <> ∅ ->
  (forall producer draw now delta r,
      exists bid s1 ev s2,
        simulate_vehicle_movement s draw = Returns (bid, s1) /\
        bid ∈ keys (self_bays s) /\
        generate_event s1 bid now delta r = Returns (ev, s2) /\
        movement_branch s producer draw now delta r =
          (ok ← publish_event producer (PyEvent ev); mret (bid, ev, ok, s2))) /\
  (forall s', rtc step s s' -> dom (self_bays s') = dom (self_bays s)).
Proof.
  intros _ Hne. split.
  - intros producer draw now delta r.
    destruct (movement_then_event s draw now delta r Hne)
      as (bid & s1 & ev & s2 & H1 & H2 & _ & H3 & _).
    exists bid, s1, ev, s2. repeat split; try assumption.
    unfold movement_branch. rewrite H1. cbn. rewrite H3. reflexivity.
  - intros s' Hrun. induction Hrun as [| s0 s1 s2 Hstep _ IH]; [reflexivity |].
    rewrite IH; [apply step_dom, Hstep |].
    intros He. apply Hne. apply (dom_empty_iff_L (D := gset string)).
    rewrite <- (step_dom _ _ Hstep), He. apply dom_empty_L.
Qed.

(** One movement branch of the run loop on the default simulator. *)
Lemma movement_returns_key_witness :
  exists bid s1 ev s2,
    simulate_vehicle_movement Examples.sim0 3 = Returns (bid, s1) /\
    bid ∈ keys (self_bays Examples.sim0) /\
    generate_event s1 bid Examples.now0 (1 # 4) (1 # 2) = Returns (ev, s2) /\
    movement_branch Examples.sim0 Examples.producer_ok 3 Examples.now0
                    (1 # 4) (1 # 2) =
      (ok ← publish_event Examples.producer_ok (PyEvent ev);
       mret (bid, ev, ok, s2)).
Proof.
  assert (Hne : self_bays Examples.sim0 <> ∅).
  { intros He. apply (f_equal (fun m => m !! "L1-A-001")) in He.
    vm_compute in He. discriminate. }
  destruct (movement_returns_key Examples.sim0 sim0_reachable Hne) as [H _].
  exact (H Examples.producer_ok 3%nat Examples.now0 (1 # 4) (1 # 2)).
Defined.

End SensoresSpec.

(** ** Facts about the store model *)

Module MongoFacts.
Import Py Mongo.

Section Sorting.
Context {A : Type} (le : A -> A -> bool).
Hypothesis le_total : forall a b, le a b = true \/ le b a = true.
Hypothesis le_trans :
  forall a b c, le a b = true -> le b c = true -> le a c = true.

Lemma insert_by_perm (x : A) (l : list A) :
  Permutation (insert_by le x l) (x :: l).
Proof.
  induction l as [| y l IH]; cbn; [reflexivity |].
  destruct (le x y); [reflexivity |].
  rewrite IH. apply perm_swap.
Qed.

Lemma sort_by_perm (l : list A) : Permutation (sort_by le l) l.
Proof.
  induction l as [| x l IH]; cbn; [reflexivity |].
  rewrite insert_by_perm. apply perm_skip, IH.
Qed.

Lemma insert_by_sorted (x : A) (l : list A) :
  StronglySorted (fun a b => le a b = true) l ->
  StronglySorted (fun a b => le a b = true) (insert_by le x l).
Proof.
  induction 1 as [| y l Hl IH Hy]; cbn.
  - repeat constructor.
  - destruct (le x y) eqn:E.
    + constructor; [constructor; assumption |].
      constructor; [exact E |].
      eapply Forall_impl; [exact Hy |]. intros z Hz. cbn in Hz.
      eapply le_trans; eassumption.
    + constructor; [exact IH |].
      eapply Permutation_Forall; [symmetry; apply insert_by_perm |].
      constructor; [| exact Hy].
      destruct (le_total x y) as [H | H]; [congruence | exact H].
Qed.

Lemma sort_by_sorted (l : list A) :
  StronglySorted (fun a b => le a b = true) (sort_by le l).
Proof.
  induction l as [| x l IH]; cbn; [constructor |].
  apply insert_by_sorted, IH.
Qed.
End Sorting.

Lemma key_le_Z_total (a b : option Z) :
  key_le_Z a b = true \/ key_le_Z b a = true.
Proof. destruct a, b; cbn; auto. lia. Qed.

Lemma key_le_Z_trans (a b c : option Z) :
  key_le_Z a b = true -> key_le_Z b c = true -> key_le_Z a c = true.
Proof. destruct a, b, c; cbn; try congruence. lia. Qed.

Lemma sum_Z_perm (l1 l2 : list Z) : Permutation l1 l2 -> sum_Z l1 = sum_Z l2.
Proof. unfold sum_Z. induction 1; cbn; lia. Qed.

Lemma sum_Z_ones {A : Type} (l : list A) :
  sum_Z ((fun _ => 1) <$> l) = Z.of_nat (List.length l).
Proof. unfold sum_Z. induction l as [| x l IH]; cbn in *; lia. Qed.

Lemma filter_all {A : Type} (p : A -> bool) (l : list A) :
  (forall a, In a l -> p a = true) -> List.filter p l = l.
Proof.
  induction l as [| a l IH]; intros H; cbn; [reflexivity |].
  rewrite (H a) by (left; reflexivity).
  f_equal. apply IH. intros b Hb. apply H. right. exact Hb.
Qed.

(** Counting the documents of each key of a duplicate-free list of keys
    counts the documents whose key is in the list. *)
Lemma group_sizes (docs : list BayDoc) (ks : list (option string)) :
  NoDup ks ->
  sum_Z ((fun k => Z.of_nat (List.length
            (List.filter (fun d => bool_decide (level d = k)) docs))) <$> ks)
  = Z.of_nat (List.length
            (List.filter (fun d => bool_decide (level d ∈ ks)) docs)).
Proof.
  induction 1 as [| k ks Hk Hks IH]; cbn [fmap list_fmap sum_Z foldr].
  - induction docs as [| d docs IHd]; cbn; [reflexivity |].
    rewrite bool_decide_eq_false_2 by apply not_elem_of_nil. exact IHd.
  - fold (sum_Z ((fun k => Z.of_nat (List.length
            (List.filter (fun d => bool_decide (level d = k)) docs))) <$> ks)).
    rewrite IH. clear IH.
    induction docs as [| d docs IHd]; cbn [List.filter]; [reflexivity |].
    destruct (decide (level d = k)) as [-> | Hne].
    + rewrite bool_decide_eq_true_2 by reflexivity.
      rewrite (bool_decide_eq_false_2 (k ∈ ks)) by exact Hk.
      rewrite (bool_decide_eq_true_2 (k ∈ k :: ks)) by apply list_elem_of_here.
      cbn [List.length]. lia.
    + rewrite (bool_decide_eq_false_2 (level d = k)) by exact Hne.
      destruct (decide (level d ∈ ks)) as [Hin | Hnin].
      * rewrite (bool_decide_eq_true_2 (level d ∈ ks)) by exact Hin.
        rewrite (bool_decide_eq_true_2 (level d ∈ k :: ks))
          by (apply list_elem_of_further, Hin).
        cbn [List.length]. lia.
      * rewrite (bool_decide_eq_false_2 (level d ∈ ks)) by exact Hnin.
        rewrite (bool_decide_eq_false_2 (level d ∈ k :: ks))
          by (rewrite elem_of_cons; tauto).
        exact IHd.
Qed.

(** The [$group] stage puts every document in exactly one group. *)
Lemma group_by_level_total (docs : list BayDoc) :
  sum_Z (g_total <$> group_by_level docs) = Z.of_nat (List.length docs).
Proof.
  unfold group_by_level. rewrite <- list_fmap_compose.
  erewrite list_fmap_ext.
  2: { intros i k _. unfold compose, accumulate. cbn [g_total].
       apply sum_Z_ones. }
  rewrite group_sizes by apply NoDup_remove_dups.
  rewrite filter_all; [reflexivity |].
  intros d Hd. apply bool_decide_eq_true_2, elem_of_remove_dups.
  apply list_elem_of_fmap. exists d. split; [reflexivity |].
  apply list_elem_of_In, Hd.
Qed.

End MongoFacts.

(** ** Properties of the query service *)

Module AppSpec.
Import Py Mongo App MongoFacts.

(** *** Health check *)

(** C8.  The health check answers 503 with [status = "unhealthy"]
    exactly when the store is unreachable (no connection, or the ping or
    a count raises); otherwise it answers 200 with [status = "healthy"]
    and the document counts of the two collections. *)
Theorem health_check_unhealthy_iff db now :
  ((status_code (health_check db now) = 503 /\
    h_status (body_of (health_check db now)) = "unhealthy")
   <-> store_unreachable db) /\
  (forall d docs evs,
      db = Some d -> cmd_ping d = Returns () ->
      bays d = Returns docs -> events d = Returns evs ->
      health_check db now =
        ({| h_status := "healthy"; h_database := Some "connected";
            h_total_bays := Some (Z.of_nat (List.length docs));
            h_total_events := Some (Z.of_nat (List.length evs));
            h_error := None; h_timestamp := now |}, 200)) /\
  (~ store_unreachable db ->
   status_code (health_check db now) = 200 /\
   h_status (body_of (health_check db now)) = "healthy").
Proof.
  assert (Hlen : forall (A : Type) (l : list A),
             List.length (List.filter match_all l) = List.length l).
  { intros A l. rewrite filter_all; [reflexivity | reflexivity]. }
  destruct db as [d |]; cbn [store_unreachable].
  2: { split; [| split].
       - cbn. split; [intros _; exact I | intros _; split; reflexivity].
       - intros d docs evs H. discriminate.
       - intros H. exfalso. apply H. exact I. }
  unfold health_check, count_documents.
  destruct (cmd_ping d) as [[] | e1] eqn:Ep; cbn.
  2: { split; [| split].
       - split; [intros _; left; eauto | intros _; split; reflexivity].
       - intros d0 docs evs [= <-] H. congruence.
       - intros H. exfalso. apply H. left. eauto. }
  destruct (bays d) as [docs | e2] eqn:Eb; cbn.
  2: { split; [| split].
       - split; [intros _; right; left; eauto | intros _; split; reflexivity].
       - intros d0 docs evs [= <-] _ H. congruence.
       - intros H. exfalso. apply H. right. left. eauto. }
  destruct (events d) as [evs | e3] eqn:Ee; cbn.
  2: { split; [| split].
       - split; [intros _; right; right; eauto | intros _; split; reflexivity].
       - intros d0 docs0 evs [= <-] _ _ H. congruence.
       - intros H. exfalso. apply H. right. right. eauto. }
  split; [| split].
  - split.
    + intros [H _]. discriminate.
    + intros [[e H] | [[e H] | [e H]]]; discriminate.
  - intros d0 docs0 evs0 [= <-] _ Hb He.
    assert (docs0 = docs) as -> by congruence.
    assert (evs0 = evs) as -> by congruence.
    rewrite !Hlen. reflexivity.
  - intros _. split; reflexivity.
Qed.

(** A connection whose ping fails, and a healthy one over six bays. *)
Lemma health_check_unhealthy_iff_witness :
  (status_code (health_check Examples.db_ping_fails Examples.now0) = 503 /\
   h_status (body_of (health_check Examples.db_ping_fails Examples.now0))
   = "unhealthy") /\
  (status_code (health_check (Examples.db_of Examples.store0) Examples.now0)
   = 200 /\
   h_total_bays
     (body_of (health_check (Examples.db_of Examples.store0) Examples.now0))
   = Some 6).
Proof.
  split.
  - apply (health_check_unhealthy_iff Examples.db_ping_fails Examples.now0).
    cbn. left. eauto.
  - destruct (health_check_unhealthy_iff (Examples.db_of Examples.store0)
                Examples.now0) as (_ & H & _).
    rewrite (H _ _ _ eq_refl eq_refl eq_refl eq_refl). split; reflexivity.
Defined.

(** *** Aggregate statistics *)

Lemma occupancy_rate_returns (occ total : Z) :
  occupancy_rate occ total =
    Returns (if total >? 0
             then round (float_mul (binary64 (inject_Z occ / inject_Z total))
                                   (100 # 1)) 2
             else (0 # 1)).
Proof.
  unfold occupancy_rate, truediv.
  destruct (total >? 0) eqn:E; [| reflexivity].
  assert ((total =? 0) = false) as -> by lia. reflexivity.
Qed.

Lemma format_level_returns (g : Group) :
  exists ls, format_level g = Returns ls /\
    ls_total ls = g_total g /\
    ls_avg_temperature ls = round_or_none (g_avg_temperature g) /\
    ls_avg_battery ls = round_or_none (g_avg_battery g).
Proof.
  unfold format_level. rewrite occupancy_rate_returns. cbn.
  eexists. split; [reflexivity |]. cbn. auto.
Qed.

Lemma mapM_format_level (gs : list Group) :
  exists lss, mapM format_level gs = Returns lss /\
    ls_total <$> lss = g_total <$> gs /\
    ls_avg_temperature <$> lss = (round_or_none ∘ g_avg_temperature) <$> gs /\
    ls_avg_battery <$> lss = (round_or_none ∘ g_avg_battery) <$> gs.
Proof.
  induction gs as [| g gs (lss & Hm & Ht & Hat & Hab)]; cbn.
  - exists []. auto.
  - destruct (format_level_returns g) as (ls & Hls & H1 & H2 & H3).
    rewrite Hls. cbn. rewrite Hm. cbn.
    exists (ls :: lss). cbn. rewrite Ht, Hat, Hab, H1, H2, H3. auto.
Qed.

(** C5.  Whatever the [bays] collection holds, the stats endpoint
    answers 200 with a document in which the level totals add up to the
    top-level total, [free = total - occupied], and [occupancy_rate] is
    [occupied / total * 100] rounded to two decimals, or 0 when the
    collection is empty; the quotient, the product and the rounding are
    those of float arithmetic, each the binary64 number nearest to the
    exact result. *)
Theorem stats_totals db docs now :
  bays db = Returns docs ->
  exists stats,
    get_stats (Some db) now = (Ok stats, 200) /\
    sum_Z (ls_total <$> s_levels stats) = s_total stats /\
    s_total stats = Z.of_nat (List.length docs) /\
    s_occupied stats = Z.of_nat (List.length (List.filter match_occupied docs)) /\
    s_free stats = s_total stats - s_occupied stats /\
    s_occupancy_rate stats =
      if s_total stats =? 0 then (0 # 1)
      else round (float_mul
                    (binary64 (inject_Z (s_occupied stats)
                               / inject_Z (s_total stats)))
                    (100 # 1)) 2.
Proof.
  intros Hdocs. unfold get_stats, count_documents, aggregate_by_level.
  rewrite Hdocs. cbn. rewrite occupancy_rate_returns. cbn.
  destruct (mapM_format_level
              (sort_by (fun a b => key_le_string (_id a) (_id b))
                       (group_by_level docs))) as (lss & Hm & Ht & _).
  rewrite Hm. cbn. eexists. split; [reflexivity |]. cbn.
  rewrite (filter_all match_all) by reflexivity.
  split; [| split; [reflexivity | split; [reflexivity | split; [reflexivity |]]]].
  - rewrite Ht.
    rewrite (sum_Z_perm _ (g_total <$> group_by_level docs)).
    + apply group_by_level_total.
    + apply fmap_Permutation, sort_by_perm.
  - destruct (List.length docs); reflexivity.
Qed.

(** The statistics of a store of six bays on three levels, and the rate
    of a store of 160 bays of which 23 are occupied: the float product
    [23 / 160 * 100] lies just below 14.375 and rounds to 14.37. *)
Lemma stats_totals_witness :
  (exists stats,
      get_stats (Examples.db_of Examples.store0) Examples.now0
      = (Ok stats, 200) /\
      sum_Z (ls_total <$> s_levels stats) = s_total stats /\
      s_total stats = 6 /\
      s_free stats = s_total stats - s_occupied stats) /\
  (exists stats,
      get_stats (Examples.db_of Examples.store160) Examples.now0
      = (Ok stats, 200) /\
      s_total stats = 160 /\ s_occupied stats = 23 /\
      s_occupancy_rate stats = binary64 (1437 # 100)).
Proof.
  split.
  - destruct (stats_totals
                {| cmd_ping := Returns (); bays := Returns Examples.store0;
                   events := Returns [Examples.event0] |}
                Examples.store0 Examples.now0 eq_refl)
      as (stats & H1 & H2 & H3 & _ & H5 & _).
    exists stats. repeat split; assumption.
  - destruct (stats_totals
                {| cmd_ping := Returns (); bays := Returns Examples.store160;
                   events := Returns [Examples.event0] |}
                Examples.store160 Examples.now0 eq_refl)
      as (stats & H1 & _ & H3 & H4 & _ & H6).
    exists stats. rewrite H6, H4, H3.
    split; [exact H1 |]. vm_compute. repeat split; reflexivity.
Defined.

Lemma round_or_none_None (x : option Q) :
  round_or_none x = None <-> x = None \/ exists q, x = Some q /\ (q == 0)%Q.
Proof.
  unfold round_or_none, truthy. destruct x as [q |]; cbn.
  - destruct (Qeq_bool q (0 # 1)) eqn:E; cbn.
    + apply Qeq_bool_iff in E. split; [eauto | reflexivity].
    + split; [discriminate |].
      intros [H | (q' & [= <-] & Hq)]; [discriminate |].
      apply Qeq_bool_iff in Hq. congruence.
  - split; [auto | reflexivity].
Qed.

(** C2, at the input where the code departs from it.  The only bay of
    level L1 reports [battery_pct = 0]: the [$avg] of the group is
    defined and equal to 0, yet the endpoint answers
    [avg_battery = null].  In general the formatted average is null
    exactly when the group average is undefined or is zero. *)
Theorem avg_battery_zero_is_null :
  (exists g q stats,
      aggregate_by_level (Returns Examples.store_flat) = Returns [g] /\
      g_avg_battery g = Some q /\ (q == 0)%Q /\
      get_stats (Examples.db_of Examples.store_flat) Examples.now0
      = (Ok stats, 200) /\
      ls_avg_battery <$> s_levels stats = [None] /\
      ls_avg_temperature <$> s_levels stats = [Some (220 # 10)]) /\
  (forall x, round_or_none x = None <->
             x = None \/ exists q, x = Some q /\ (q == 0)%Q).
Proof.
  split; [| apply round_or_none_None].
  eexists _, _, _. vm_compute. repeat split; reflexivity.
Qed.

(** *** Low-battery bays *)

Lemma comprehension_returns {A : Type} (p : A -> result bool)
    (q : A -> bool) (l : list A) :
  (forall a, In a l -> p a = Returns (q a)) ->
  comprehension p l = Returns (List.filter q l).
Proof.
  induction l as [| a l IH]; intros H; cbn; [reflexivity |].
  rewrite (H a) by (left; reflexivity). cbn.
  rewrite IH by (intros b Hb; apply H; right; exact Hb). cbn.
  destruct (q a); reflexivity.
Qed.

(** A list sorted on its battery key splits at 10 into a prefix and a
    suffix. *)
Lemma sorted_split (l : list BayDoc) :
  StronglySorted
    (fun a b => key_le_Z (path_battery a) (path_battery b) = true) l ->
  Forall (fun d => is_Some (path_battery d)) l ->
  List.filter (fun d => match path_battery d with
                        | Some x => x <? 10 | None => false end) l
  ++ List.filter (fun d => match path_battery d with
                           | Some x => 10 <=? x | None => false end) l
  = l.
Proof.
  induction 1 as [| d l Hl IH Hd]; intros Hsome; [reflexivity |].
  apply Forall_cons in Hsome as [[x Hx] Hsome]. cbn [List.filter].
  rewrite Hx. destruct (x <? 10) eqn:E.
  - assert ((10 <=? x) = false) as -> by lia. cbn. f_equal. apply IH, Hsome.
  - assert ((10 <=? x) = true) as -> by lia.
    rewrite (filter_all (fun d => match path_battery d with
                                  | Some x => 10 <=? x | None => false end) l).
    + replace (List.filter _ l) with (@nil BayDoc); [reflexivity |].
      symmetry. clear IH Hl. induction l as [| d' l IHl]; [reflexivity |].
      apply Forall_cons in Hd as [Hd' Hd]. apply Forall_cons in Hsome as [[y Hy] Hsome].
      cbn [List.filter]. rewrite Hy. rewrite Hx, Hy in Hd'. cbn in Hd'.
      assert ((y <? 10) = false) as -> by lia. apply IHl; assumption.
    + intros d' Hin. rewrite Forall_forall in Hd, Hsome.
      apply list_elem_of_In in Hin.
      destruct (Hsome _ Hin) as [y Hy]. specialize (Hd _ Hin).
      rewrite Hx, Hy in Hd. cbn in Hd. rewrite Hy. lia.
Qed.

(** C6.  Whatever the [bays] collection holds, the low-battery endpoint
    answers 200; the bays it selects are those of the collection with
    [battery_pct < 20], in ascending order of battery; [urgent] followed
    by [high_priority] is that selection, so the two counts add up to
    [total_count]; every urgent bay is below 10 and every high-priority
    bay is in [[10, 20)]. *)
Theorem low_battery_partition db docs :
  bays db = Returns docs ->
  exists selected res,
    low_battery_bays (bays db) = Returns selected /\
    get_low_battery_bays (Some db) = (Ok res, 200) /\
    Permutation selected (List.filter (match_battery_lt 20) docs) /\
    (forall d, d ∈ selected <->
               d ∈ docs /\ exists x, path_battery d = Some x /\ x < 20) /\
    StronglySorted
      (fun a b => key_le_Z (path_battery a) (path_battery b) = true) selected /\
    lb_urgent res ++ lb_high_priority res = selected /\
    lb_total_count res = Z.of_nat (List.length selected) /\
    lb_urgent_count res + lb_high_priority_count res = lb_total_count res /\
    Forall (fun b => exists x, path_battery b = Some x /\ x < 10)
           (lb_urgent res) /\
    Forall (fun b => exists x, path_battery b = Some x /\ 10 <= x < 20)
           (lb_high_priority res).
Proof.
  intros Hdocs.
  set (le := fun a b : BayDoc => key_le_Z (path_battery a) (path_battery b)).
  set (selected := sort_by le (List.filter (match_battery_lt 20) docs)).
  assert (Hperm : Permutation selected (List.filter (match_battery_lt 20) docs))
    by apply sort_by_perm.
  assert (Hmem : forall d, d ∈ selected <->
             d ∈ docs /\ exists x, path_battery d = Some x /\ x < 20).
  { intros d. rewrite Hperm, !list_elem_of_In, filter_In.
    unfold match_battery_lt.
    split.
    - intros [Hin Hlt]. split; [exact Hin |].
      destruct (path_battery d) as [x |]; [| discriminate].
      exists x. split; [reflexivity | lia].
    - intros [Hin (x & -> & Hlt)]. split; [exact Hin | lia]. }
  assert (Hsorted : StronglySorted (fun a b => le a b = true) selected).
  { apply sort_by_sorted.
    - intros a b. apply key_le_Z_total.
    - intros a b c. apply key_le_Z_trans. }
  assert (Hsome : forall d, In d selected ->
             exists x, path_battery d = Some x /\ getitem_battery d = Returns x
                       /\ x < 20).
  { intros d Hin. apply list_elem_of_In, Hmem in Hin as [_ (x & Hx & Hlt)].
    exists x. split; [exact Hx |]. split; [| exact Hlt].
    unfold path_battery in Hx. unfold getitem_battery.
    destruct (metrics d) as [m |]; cbn in Hx; [| discriminate].
    rewrite Hx. reflexivity. }
  set (qu := fun d : BayDoc => match path_battery d with
                               | Some x => x <? 10 | None => false end).
  set (qh := fun d : BayDoc => match path_battery d with
                               | Some x => 10 <=? x | None => false end).
  assert (Hsplit : List.filter qu selected ++ List.filter qh selected = selected).
  { apply sorted_split; [exact Hsorted |].
    apply Forall_forall. intros d Hin. apply list_elem_of_In in Hin.
    destruct (Hsome d Hin) as (x & Hx & _). eauto. }
  exists selected,
    {| lb_success := true;
       lb_total_count := Z.of_nat (List.length selected);
       lb_urgent_count := Z.of_nat (List.length (List.filter qu selected));
       lb_high_priority_count := Z.of_nat (List.length (List.filter qh selected));
       lb_urgent := List.filter qu selected;
       lb_high_priority := List.filter qh selected;
       lb_threshold := low_battery_threshold |}.
  split; [unfold low_battery_bays, find_sorted; rewrite Hdocs; reflexivity |].
  split.
  { unfold get_low_battery_bays, low_battery_bays, find_sorted.
    rewrite Hdocs. cbn. fold le. fold selected.
    rewrite (comprehension_returns
               (fun b => x ← getitem_battery b; mret (x <? 10)) qu).
    2: { intros d Hin. destruct (Hsome d Hin) as (x & Hx & Hg & _).
         rewrite Hg. unfold qu. rewrite Hx. reflexivity. }
    cbn. rewrite (comprehension_returns
               (fun b => x ← getitem_battery b;
                         mret ((10 <=? x) && (x <? 20))) qh).
    2: { intros d Hin. destruct (Hsome d Hin) as (x & Hx & Hg & Hlt).
         rewrite Hg. unfold qh. rewrite Hx. cbn.
         assert ((x <? 20) = true) as -> by lia.
         rewrite andb_true_r. reflexivity. }
    reflexivity. }
  cbn. split; [exact Hperm |]. split; [exact Hmem |].
  split; [exact Hsorted |]. split; [exact Hsplit |].
  split; [reflexivity |]. split; [| split].
  - pose proof (f_equal (@List.length BayDoc) Hsplit) as Hl.
    rewrite length_app in Hl. lia.
  - apply Forall_forall. intros d Hin.
    apply list_elem_of_In, filter_In in Hin as [Hin Hq].
    destruct (Hsome d Hin) as (x & Hx & _ & _). unfold qu in Hq.
    rewrite Hx in Hq. exists x. split; [exact Hx | lia].
  - apply Forall_forall. intros d Hin.
    apply list_elem_of_In, filter_In in Hin as [Hin Hq].
    destruct (Hsome d Hin) as (x & Hx & _ & Hlt). unfold qh in Hq.
    rewrite Hx in Hq. exists x. split; [exact Hx | lia].
Qed.

(** The low-battery report of the same store: two urgent bays, two of
    high priority, the bay without metrics and the charged one left out. *)
Lemma low_battery_partition_witness :
  exists res,
    get_low_battery_bays (Examples.db_of Examples.store0) = (Ok res, 200) /\
    lb_total_count res = 4 /\
    lb_urgent_count res + lb_high_priority_count res = lb_total_count res /\
    Mongo.bay_id <$> lb_urgent res = ["L1-A-001"; "L2-A-002"] /\
    Mongo.bay_id <$> lb_high_priority res = ["L1-A-002"; "L2-A-001"].
Proof.
  destruct (low_battery_partition
              {| cmd_ping := Returns (); bays := Returns Examples.store0;
                 events := Returns [Examples.event0] |}
              Examples.store0 eq_refl)
    as (selected & res & _ & Hres & _ & _ & _ & _ & _ & Hsum & _).
  exists res. split; [exact Hres |].
  assert (Hval : get_low_battery_bays (Examples.db_of Examples.store0)
                 = (Ok _, 200)) by (vm_compute; reflexivity).
  unfold Examples.db_of in Hval. rewrite Hres in Hval.
  injection Hval as ->. split; [reflexivity |].
  split; [reflexivity |]. split; reflexivity.
Defined.

End AppSpec.

(** ** Further properties of the sensor simulator *)

Module SensoresMore.
Import Py Sensores PyFacts SensoresSpec.

(** *** Counting occupied bays *)

Lemma values_insert_perm (m : gmap string Bay) (k : string) (b b' : Bay) :
  m !! k = Some b ->
  values m ≡ₚ b :: values (delete k m) /\
  values (<[k := b']> m) ≡ₚ b' :: values (delete k m).
Proof.
  intros Hk. unfold values. split.
  - rewrite <- (map_to_list_delete m k b Hk). reflexivity.
  - rewrite <- insert_delete_eq.
    rewrite map_to_list_insert by apply lookup_delete_eq. reflexivity.
Qed.

Lemma occupied_count_perm (l1 l2 : list Bay) :
  l1 ≡ₚ l2 ->
  List.length (List.filter occupied l1) = List.length (List.filter occupied l2).
Proof.
  induction 1 as [| x l1 l2 _ IH | x y l | l1 l2 l3 _ IH1 _ IH2]; cbn.
  - reflexivity.
  - destruct (occupied x); cbn; congruence.
  - destruct (occupied x), (occupied y); reflexivity.
  - congruence.
Qed.

Lemma occupied_count_le (l : list Bay) :
  (List.length (List.filter occupied l) <= List.length l)%nat.
Proof.
  induction l as [| b l IH]; cbn; [lia |].
  destruct (occupied b); cbn; lia.
Qed.

Lemma size_values (m : gmap string Bay) : List.length (values m) = size m.
Proof. unfold values. rewrite length_fmap. apply length_map_to_list. Qed.

(** X1.  Whenever [get_parking_status] returns, the bay set is not empty,
    [occupied + free = total_bays], the occupied count lies between 0 and
    the total, and the occupancy rate lies between 0 and 100. *)
Theorem status_counts self st :
  get_parking_status self = Returns st ->
  1 <= st_total_bays st /\
  st_occupied st + st_free st = st_total_bays st /\
  0 <= st_occupied st <= st_total_bays st /\
  (0 <= st_occupancy_rate st)%Q /\ (st_occupancy_rate st <= 100)%Q.
Proof.
  unfold get_parking_status, truediv.
  pose proof (occupied_count_le (values (self_bays self))) as Hle.
  rewrite size_values in Hle.
  set (total := Z.of_nat (size (self_bays self))) in *.
  set (occ := Z.of_nat (List.length (List.filter occupied (values (self_bays self))))) in *.
  destruct (total =? 0) eqn:Et; [discriminate |].
  cbn. intros [= <-]. cbn.
  assert (Hocc : 0 <= occ <= total) by (subst occ total; lia).
  assert (Htot : 1 <= total) by lia.
  split; [exact Htot |]. split; [lia |]. split; [exact Hocc |].
  apply (percentage_bounds occ total 1); assumption.
Qed.

Lemma status_counts_witness :
  exists st,
    get_parking_status Examples.sim0 = Returns st /\
    st_total_bays st = 20 /\
    st_occupied st + st_free st = st_total_bays st /\
    (st_occupancy_rate st <= 100)%Q.
Proof.
  eexists.
  assert (Hcall : get_parking_status Examples.sim0 = Returns _)
    by (vm_compute; reflexivity).
  destruct (status_counts _ _ Hcall) as (_ & H2 & _ & _ & H5).
  split; [exact Hcall |]. split; [reflexivity |]. split; assumption.
Defined.

Lemma status_of_bays (s1 s2 : ParkingSensorSimulator) :
  size (self_bays s1) = size (self_bays s2) ->
  List.length (List.filter occupied (values (self_bays s1)))
  = List.length (List.filter occupied (values (self_bays s2))) ->
  get_parking_status s1 = get_parking_status s2.
Proof. intros Hs Ho. unfold get_parking_status. rewrite Hs, Ho. reflexivity. Qed.

(** X2.  [generate_event] does not change what [get_parking_status]
    reports; [simulate_vehicle_movement] keeps the total and moves the
    occupied count by exactly one, up when the chosen bay was free and down
    when it was occupied. *)
Theorem status_under_operations self :
  (forall bid now delta r ev s',
      generate_event self bid now delta r = Returns (ev, s') ->
      get_parking_status s' = get_parking_status self) /\
  (forall draw bid s' bay st,
      simulate_vehicle_movement self draw = Returns (bid, s') ->
      self_bays self !! bid = Some bay ->
      get_parking_status self = Returns st ->
      exists st',
        get_parking_status s' = Returns st' /\
        st_total_bays st' = st_total_bays st /\
        st_occupied st' =
          if occupied bay then st_occupied st - 1 else st_occupied st + 1).
Proof.
  split.
  - intros bid now delta r ev s' Hcall.
    apply generate_event_inv in Hcall as (bay & Hbay & _ & ->).
    apply status_of_bays; cbn [self_bays set_bays].
    + apply map_size_insert_Some. eauto.
    + destruct (values_insert_perm _ _ _ (drift bay delta r) Hbay) as [H1 H2].
      rewrite (occupied_count_perm _ _ H1), (occupied_count_perm _ _ H2).
      cbn [List.filter]. change (occupied (drift bay delta r)) with (occupied bay).
      destruct (occupied bay); reflexivity.
  - intros draw bid s' bay st Hcall Hbay Hst.
    apply simulate_vehicle_movement_inv in Hcall as (bay0 & Hbay0 & ->).
    assert (bay0 = bay) as -> by congruence.
    destruct (values_insert_perm _ _ _ (flip bay) Hbay) as [H1 H2].
    pose proof (occupied_count_perm _ _ H1) as Ho1.
    pose proof (occupied_count_perm _ _ H2) as Ho2.
    assert (Hsize : size (<[bid := flip bay]> (self_bays self))
                    = size (self_bays self))
      by (apply map_size_insert_Some; eauto).
    revert Hst. unfold get_parking_status, truediv.
    cbn [self_bays set_bays]. rewrite Hsize, Ho1, Ho2.
    destruct (Z.of_nat (size (self_bays self)) =? 0) eqn:Et; [discriminate |].
    cbn. intros [= <-]. eexists. split; [reflexivity |]. cbn.
    split; [reflexivity |]. destruct (occupied bay); cbn; lia.
Qed.

Lemma status_under_operations_witness :
  exists bid s' st st',
    simulate_vehicle_movement Examples.sim0 7 = Returns (bid, s') /\
    get_parking_status Examples.sim0 = Returns st /\
    get_parking_status s' = Returns st' /\
    st_total_bays st' = st_total_bays st /\
    (st_occupied st' = st_occupied st - 1 \/
     st_occupied st' = st_occupied st + 1).
Proof.
  eexists _, _, _.
  assert (Hcall : simulate_vehicle_movement Examples.sim0 7 = Returns (_, _))
    by (vm_compute; reflexivity).
  assert (Hst : get_parking_status Examples.sim0 = Returns _)
    by (vm_compute; reflexivity).
  destruct (simulate_vehicle_movement_inv _ _ _ _ Hcall) as (bay & Hbay & _).
  destruct (status_under_operations Examples.sim0) as [_ Hmove].
  destruct (Hmove _ _ _ _ _ Hcall Hbay Hst) as (st' & H1 & H2 & H3).
  exists st'. split; [exact Hcall |]. split; [exact Hst |].
  split; [exact H1 |]. split; [exact H2 |].
  rewrite H3. destruct (occupied bay); auto.
Defined.

(** X3.  [simulate_vehicle_movement] raises [IndexError] exactly on a
    simulator without bays, where [random.choice] is handed an empty list;
    on any other simulator it returns, whatever the draw. *)
Theorem movement_raises_iff_empty self draw :
  (self_bays self = ∅ ->
   simulate_vehicle_movement self draw = Raises IndexError) /\
  (self_bays self <> ∅ ->
   exists bid s', simulate_vehicle_movement self draw = Returns (bid, s')) /\
  (simulate_vehicle_movement self draw = Raises IndexError <->
   self_bays self = ∅).
Proof.
  assert (Hempty : self_bays self = ∅ ->
            simulate_vehicle_movement self draw = Raises IndexError).
  { intros He. unfold simulate_vehicle_movement, keys. rewrite He.
    rewrite map_to_list_empty. unfold choice. cbn [fmap list_fmap List.length].
    rewrite nth_error_nil. reflexivity. }
  assert (Hfull : self_bays self <> ∅ ->
            exists bid s', simulate_vehicle_movement self draw = Returns (bid, s')).
  { intros Hne.
    destruct (simulate_vehicle_movement_total self draw Hne) as (bid & bay & _ & H).
    eauto. }
  split; [exact Hempty |]. split; [exact Hfull |].
  split; [| exact Hempty].
  intros Hraise. destruct (decide (self_bays self = ∅)) as [He | Hne]; [exact He |].
  destruct (Hfull Hne) as (bid & s' & H). congruence.
Qed.

Lemma movement_raises_iff_empty_witness :
  simulate_vehicle_movement
    (__init__ "PK-CADIZ-01" 0 10 Examples.rnd0) 3 = Raises IndexError /\
  exists bid s', simulate_vehicle_movement Examples.sim0 3 = Returns (bid, s').
Proof.
  split.
  - apply (movement_raises_iff_empty (__init__ "PK-CADIZ-01" 0 10 Examples.rnd0) 3).
    reflexivity.
  - apply (movement_raises_iff_empty Examples.sim0 3).
    intros He. apply (f_equal (fun m => m !! "L1-A-001")) in He.
    vm_compute in He. discriminate.
Defined.

Lemma keys_insert (m : gmap string Bay) (k : string) (b b' : Bay) :
  m !! k = Some b -> keys (<[k := b']> m) = keys m.
Proof.
  intros Hk. unfold keys.
  assert (Hin : (k, b) ∈ map_to_list m) by (apply elem_of_map_to_list, Hk).
  apply list_elem_of_lookup in Hin as [j Hj].
  rewrite (map_to_list_update m j k b b' Hj).
  rewrite list_fmap_insert. cbn.
  apply list_insert_id. rewrite list_lookup_fmap, Hj. reflexivity.
Qed.

Lemma flip_flip (b : Bay) : flip (flip b) = b.
Proof. destruct b as [i p l o t c]. unfold flip; cbn. rewrite negb_involutive. reflexivity. Qed.

(** X4.  A movement is undone by a second movement with the same draw:
    the same bay is chosen again and the simulator is back in the state it
    started from. *)
Theorem movement_twice_restores self draw bid s1 :
  simulate_vehicle_movement self draw = Returns (bid, s1) ->
  simulate_vehicle_movement s1 draw = Returns (bid, self).
Proof.
  intros Hcall.
  pose proof Hcall as Hinv.
  apply simulate_vehicle_movement_inv in Hinv as (bay & Hbay & ->).
  unfold simulate_vehicle_movement in *. cbn [self_bays set_bays].
  rewrite (keys_insert _ _ bay (flip bay) Hbay).
  destruct (choice (keys (self_bays self)) draw) as [k | e]; [| discriminate].
  cbn in Hcall |- *.
  destruct (getitem (self_bays self) k) as [bk | e] eqn:Ek; [| discriminate].
  cbn in Hcall. injection Hcall as -> _.
  unfold getitem. rewrite lookup_insert_eq. cbn.
  rewrite insert_insert_eq, flip_flip, (insert_id _ _ _ Hbay).
  destruct self; reflexivity.
Qed.

Lemma movement_twice_restores_witness :
  exists bid s1,
    simulate_vehicle_movement Examples.sim0 7 = Returns (bid, s1) /\
    simulate_vehicle_movement s1 7 = Returns (bid, Examples.sim0).
Proof.
  eexists _, _.
  assert (Hcall : simulate_vehicle_movement Examples.sim0 7 = Returns (_, _))
    by (vm_compute; reflexivity).
  split; [exact Hcall |].
  exact (movement_twice_restores _ _ _ _ Hcall).
Defined.

(** *** Labels *)

Lemma in_range (a b x : Z) : In x (range a b) <-> a <= x < b.
Proof.
  unfold range. rewrite in_map_iff. split.
  - intros (i & <- & Hi). apply in_seq in Hi. lia.
  - intros Hx. exists (Z.to_nat (x - a)). split; [lia |]. apply in_seq. lia.
Qed.

Lemma foldl_invariant_in {A B : Type} (P : A -> Prop) (f : A -> B -> A)
    (l : list B) (a : A) :
  P a -> (forall a b, In b l -> P a -> P (f a b)) -> P (foldl f a l).
Proof.
  revert a. induction l as [| b l IH]; intros a Ha Hf; cbn; [exact Ha |].
  apply IH.
  - apply Hf; [left; reflexivity | exact Ha].
  - intros a' b' Hin. apply Hf. right. exact Hin.
Qed.

Lemma __init___well_labelled pid levels bays_per_level rnd :
  map_Forall (well_labelled (__init__ pid levels bays_per_level rnd))
             (self_bays (__init__ pid levels bays_per_level rnd)).
Proof.
  cbn [self_bays __init__]. unfold _initialize_bays.
  apply foldl_invariant_in; [apply map_Forall_empty |].
  intros bays lvl Hlvl Hbays. apply in_range in Hlvl.
  apply foldl_invariant_in; [exact Hbays |].
  intros bays' n Hn Hbays'. apply in_range in Hn.
  apply map_Forall_insert_2; [| exact Hbays'].
  split; [reflexivity |]. split; [reflexivity |].
  exists lvl, n. cbn. repeat split; try reflexivity; lia.
Qed.

Lemma step_well_labelled s s' :
  step s s' ->
  map_Forall (well_labelled s) (self_bays s) ->
  map_Forall (well_labelled s') (self_bays s').
Proof.
  intros Hstep Hinv.
  destruct Hstep as [s bid now delta r ev s' H | s draw bid s' H].
  - apply generate_event_inv in H as (bay & Hbay & _ & ->).
    cbn [self_bays set_bays].
    apply map_Forall_insert_2; [exact (Hinv _ _ Hbay) | exact Hinv].
  - apply simulate_vehicle_movement_inv in H as (bay & Hbay & ->).
    cbn [self_bays set_bays].
    apply map_Forall_insert_2; [exact (Hinv _ _ Hbay) | exact Hinv].
Qed.

Lemma reachable_well_labelled s :
  reachable s -> map_Forall (well_labelled s) (self_bays s).
Proof.
  induction 1 as [pid levels bpl rnd _ | s s' _ IH Hstep].
  - apply __init___well_labelled.
  - eapply step_well_labelled; eassumption.
Qed.

(** X5.  On a reachable simulator every bay is stored under its own
    [bay_id], which has the form [L{level}-A-{bay:03d}] for a level and a
    bay number of the configured ranges, and carries the simulator's
    [parking_id] and the level label of its id.  So the event generated
    for a key carries that key, the simulator's parking id, a level label
    of the configured range, and the clock reading in both timestamps. *)
Theorem events_are_labelled s :
  reachable s ->
  map_Forall (well_labelled s) (self_bays s) /\
  (forall bid now delta r ev s',
      generate_event s bid now delta r = Returns (ev, s') ->
      ev_bay_id ev = bid /\
      ev_parking_id ev = self_parking_id s /\
      ev_last_event_ts ev = now /\ ev_updated_at ev = now /\
      exists lvl, 1 <= lvl <= self_levels s /\ ev_level ev = "L" +:+ pretty lvl).
Proof.
  intros Hreach. pose proof (reachable_well_labelled _ Hreach) as Hinv.
  split; [exact Hinv |].
  intros bid now delta r ev s' Hcall.
  apply generate_event_inv in Hcall as (bay & Hbay & -> & _).
  destruct (Hinv _ _ Hbay) as (Hid & Hpid & lvl & n & Hl & _ & _ & Hlevel).
  cbn. repeat split; try assumption. exists lvl. split; assumption.
Qed.

Lemma events_are_labelled_witness :
  exists ev s',
    generate_event Examples.sim0 "L2-A-007" Examples.now0 (1 # 4) (1 # 2)
    = Returns (ev, s') /\
    ev_bay_id ev = "L2-A-007" /\
    ev_parking_id ev = "PK-CADIZ-01" /\
    ev_last_event_ts ev = Examples.now0.
Proof.
  eexists _, _.
  assert (Hcall : generate_event Examples.sim0 "L2-A-007" Examples.now0
                    (1 # 4) (1 # 2) = Returns (_, _)) by (vm_compute; reflexivity).
  destruct (events_are_labelled Examples.sim0 sim0_reachable) as [_ H].
  destruct (H _ _ _ _ _ _ Hcall) as (H1 & H2 & H3 & _).
  split; [exact Hcall |]. split; [exact H1 |]. split; [exact H2 | exact H3].
Defined.

(** *** The battery floor *)

(** X6.  On a reachable simulator the battery of every stored bay and of
    every event lies in [[20, 100]], and a bay that has reached 20 reports
    20 in every later event: the drift never goes below its floor. *)
Theorem battery_floor s :
  reachable s ->
  map_Forall (fun _ b => 20 <= battery_pct b <= 100) (self_bays s) /\
  (forall bid now delta r ev s',
      generate_event s bid now delta r = Returns (ev, s') ->
      20 <= m_battery_pct (ev_metrics ev) <= 100) /\
  (forall bid bay s1 now delta r ev s2,
      self_bays s !! bid = Some bay -> battery_pct bay = 20 ->
      rtc step s s1 ->
      generate_event s1 bid now delta r = Returns (ev, s2) ->
      m_battery_pct (ev_metrics ev) = 20).
Proof.
  intros Hreach. pose proof (reachable_inv _ Hreach) as Hinv.
  split; [| split].
  - intros k b Hk. apply (Hinv k b Hk).
  - intros bid now delta r ev s' Hcall.
    apply generate_event_inv in Hcall as (bay & Hbay & -> & _).
    apply (drift_inv bay delta r (Hinv _ _ Hbay)).
  - intros bid bay s1 now delta r ev s2 Hbay H20 Hrun Hcall.
    assert (Hrun2 : rtc step s s2).
    { eapply rtc_r; [exact Hrun |]. eapply step_event; exact Hcall. }
    pose proof (reachable_inv _ (rtc_step_reachable _ _ Hreach Hrun2)) as Hinv2.
    destruct (run_battery _ _ _ _ Hrun2 Hinv Hbay) as (bay2 & Hbay2 & Hle).
    apply generate_event_inv in Hcall as (bay1 & Hbay1 & -> & ->).
    cbn [self_bays set_bays] in Hbay2. rewrite lookup_insert_eq in Hbay2.
    injection Hbay2 as <-.
    assert (Hin : 20 <= battery_pct (drift bay1 delta r) <= 100).
    { assert (Hb : bay_inv (drift bay1 delta r)).
      { apply (Hinv2 bid). cbn [self_bays set_bays]. apply lookup_insert_eq. }
      destruct Hb as (_ & _ & Hb). exact Hb. }
    cbn [snapshot ev_metrics m_battery_pct]. lia.
Qed.

Lemma battery_floor_witness :
  exists ev s',
    generate_event Examples.sim0 "L1-A-003" Examples.now0 (0 # 1) (0 # 1)
    = Returns (ev, s') /\
    20 <= m_battery_pct (ev_metrics ev) <= 100.
Proof.
  eexists _, _.
  assert (Hcall : generate_event Examples.sim0 "L1-A-003" Examples.now0
                    (0 # 1) (0 # 1) = Returns (_, _)) by (vm_compute; reflexivity).
  destruct (battery_floor Examples.sim0 sim0_reachable) as (_ & H & _).
  split; [exact Hcall | exact (H _ _ _ _ _ _ Hcall)].
Defined.

(** *** The temperature walk *)

Lemma round1_tenths (x : Q) :
  round x 1 = tenths (round_half_even (x * inject_Z 10)).
Proof. reflexivity. Qed.

Lemma tenths_le (n b : Z) :
  0 <= b < 2 ^ 53 -> n <= 10 * b -> (tenths n <= inject_Z b)%Q.
Proof.
  intros Hb Hn. apply binary64_le_int; [exact Hb |].
  unfold Qle; simpl. lia.
Qed.

Lemma tenths_ge (n a : Z) :
  0 <= a <= 2 ^ 53 -> 10 * a <= n -> (inject_Z a <= tenths n)%Q.
Proof.
  intros Ha Hn. apply binary64_ge_int; [exact Ha |].
  unfold Qle; simpl. lia.
Qed.

(** Between 0.1 and 63.9 the float of [n] tenths is within [2 ^ -48] of
    [n / 10]. *)
Lemma tenths_near (n : Z) :
  1 <= n <= 639 ->
  ((n # 10) - (1 # 2 ^ 48) <= tenths n)%Q /\
  (tenths n <= (n # 10) + (1 # 2 ^ 48))%Q.
Proof.
  intros Hn. apply binary64_near; unfold Qlt; simpl; lia.
Qed.

Lemma clamp_cases (t : Q) :
  let c := max (15 # 1) (min (35 # 1) t) in
  (c = t /\ (15 < t)%Q /\ (t < 35)%Q) \/
  (c = (15 # 1) /\ (t <= 15)%Q) \/
  (c = (35 # 1) /\ (35 <= t)%Q).
Proof.
  unfold max, min. destruct (flt t (35 # 1)) eqn:E1.
  - apply flt_true in E1. destruct (flt (15 # 1) t) eqn:E2.
    + apply flt_true in E2. left. auto.
    + apply flt_false in E2. right. left. auto.
  - apply flt_false in E1. right. right. auto.
Qed.

Lemma tenths_shift (m d : Z) :
  (inject_Z (m + d) == (m # 10) * inject_Z 10 + inject_Z d)%Q.
Proof. unfold Qeq, Qmult, Qplus, inject_Z; simpl. lia. Qed.

Lemma tenths_mono_Q (k n : Z) : k <= n -> (k # 10 <= n # 10)%Q.
Proof. intros H. unfold Qle; simpl. lia. Qed.

(** The clamp of a float of [k] tenths is a float of [n] tenths with [n]
    between 150 and 350. *)
Lemma clamped_tenths (k : Z) :
  exists n, 150 <= n <= 350 /\
    max (15 # 1) (min (35 # 1) (tenths k)) = tenths n /\
    (n = k \/ (n = 150 /\ (tenths k <= 15)%Q) \/
     (n = 350 /\ (35 <= tenths k)%Q)).
Proof.
  destruct (clamp_cases (tenths k)) as [(-> & H1 & H2) | [(-> & H) | (-> & H)]].
  - exists k. split; [| auto]. split.
    + destruct (Z_le_gt_dec k 150) as [Hle | Hgt]; [| lia].
      exfalso. apply (Qlt_not_le _ _ H1), (tenths_le k 15); lia.
    + destruct (Z_le_gt_dec 350 k) as [Hle | Hgt]; [| lia].
      exfalso. apply (Qlt_not_le _ _ H2), (tenths_ge k 35); lia.
  - exists 150. split; [lia |]. split; [vm_compute; reflexivity | auto].
  - exists 350. split; [lia |]. split; [vm_compute; reflexivity | auto].
Qed.

(** One drift step from a stored temperature of [m] tenths. *)
Lemma drift_walk (b : Bay) (m : Z) (delta r : Q) :
  150 <= m <= 350 -> temperature_c b = tenths m ->
  (- (1 # 2) <= delta)%Q -> (delta <= 1 # 2)%Q ->
  exists n, 150 <= n <= 350 /\
    temperature_c (drift b delta r) = tenths n /\ m - 5 <= n <= m + 5.
Proof.
  intros Hm Ht Hd1 Hd2. unfold drift; cbn [temperature_c].
  rewrite Ht, round1_tenths. unfold float_add.
  destruct (tenths_near m) as [Ht1 Ht2]; [lia |].
  change (2 ^ 48)%positive with 281474976710656%positive in Ht1, Ht2.
  pose proof (tenths_mono_Q 150 m ltac:(lia)) as Hm1.
  pose proof (tenths_mono_Q m 350 ltac:(lia)) as Hm2.
  set (t := tenths m) in *. clearbody t.
  destruct (binary64_near (t + delta)) as [Hx1 Hx2]; [lra | lra |].
  change (2 ^ 48)%positive with 281474976710656%positive in Hx1, Hx2.
  set (x := binary64 (t + delta)) in *. clearbody x.
  assert (Hk : m - 5 <= round_half_even (x * inject_Z 10) <= m + 5).
  { apply round_half_even_near.
    - rewrite (tenths_shift m (-5)).
      change (inject_Z 10) with (10 # 1)%Q. change (inject_Z (-5)) with (-5 # 1)%Q.
      lra.
    - rewrite (tenths_shift m 5).
      change (inject_Z 10) with (10 # 1)%Q. change (inject_Z 5) with (5 # 1)%Q.
      lra. }
  set (k := round_half_even (x * inject_Z 10)) in *. clearbody k.
  destruct (clamped_tenths k) as (n & Hn & -> & Hcase).
  exists n. split; [exact Hn |]. split; [reflexivity |].
  destruct Hcase as [-> | [(-> & H) | (-> & H)]]; [exact Hk | |].
  - assert (k <= 150); [| lia].
    destruct (Z_le_gt_dec k 150) as [Hle | Hgt]; [exact Hle |]. exfalso.
    destruct (tenths_near k) as [Hk1 _]; [lia |].
    change (2 ^ 48)%positive with 281474976710656%positive in Hk1.
    pose proof (tenths_mono_Q 151 k ltac:(lia)). lra.
  - assert (350 <= k); [| lia].
    destruct (Z_le_gt_dec 350 k) as [Hle | Hgt]; [exact Hle |]. exfalso.
    destruct (tenths_near k) as [_ Hk2]; [lia |].
    change (2 ^ 48)%positive with 281474976710656%positive in Hk2.
    pose proof (tenths_mono_Q k 349 ltac:(lia)). lra.
Qed.

Lemma drift_tenths (b : Bay) (delta r : Q) :
  whole_tenths (temperature_c (drift b delta r)).
Proof.
  unfold drift; cbn [temperature_c]. rewrite round1_tenths.
  destruct (clamped_tenths
              (round_half_even
                 (float_add (temperature_c b) delta * inject_Z 10)))
    as (n & Hn & -> & _).
  exists n. auto.
Qed.

Lemma init_bay_tenths pid rnd lvl bay :
  valid_draw (rnd lvl bay) ->
  whole_tenths (temperature_c (init_bay pid rnd lvl bay)).
Proof.
  intros (Hlo & Hhi & _). unfold init_bay; cbn [temperature_c].
  rewrite round1_tenths. eexists. split; [| reflexivity].
  assert (180 <= round_half_even (draw_uniform (rnd lvl bay) * inject_Z 10)).
  { apply round_half_even_lower.
    change (inject_Z 180) with (inject_Z 18 * inject_Z 10)%Q.
    apply Qmult_le_compat_r; [exact Hlo | discriminate]. }
  assert (round_half_even (draw_uniform (rnd lvl bay) * inject_Z 10) <= 280).
  { apply round_half_even_upper.
    change (inject_Z 280) with (inject_Z 28 * inject_Z 10)%Q.
    apply Qmult_le_compat_r; [exact Hhi | discriminate]. }
  lia.
Qed.

Lemma reachable_tenths s :
  reachable s ->
  map_Forall (fun _ b => whole_tenths (temperature_c b)) (self_bays s).
Proof.
  induction 1 as [pid levels bpl rnd Hrnd | s s' _ IH Hstep].
  - cbn [self_bays __init__]. unfold _initialize_bays.
    apply foldl_invariant; [apply map_Forall_empty |].
    intros bays lvl Hbays. apply foldl_invariant; [exact Hbays |].
    intros bays' n Hbays'. apply map_Forall_insert_2; [| exact Hbays'].
    apply init_bay_tenths, Hrnd.
  - destruct Hstep as [s bid now delta r ev s' H | s draw bid s' H].
    + apply generate_event_inv in H as (bay & Hbay & _ & ->).
      cbn [self_bays set_bays].
      apply map_Forall_insert_2; [apply drift_tenths | exact IH].
    + apply simulate_vehicle_movement_inv in H as (bay & Hbay & ->).
      cbn [self_bays set_bays].
      apply map_Forall_insert_2; [exact (IH _ _ Hbay) | exact IH].
Qed.

(** X7.  On a reachable simulator every stored temperature is the float
    nearest to a whole number of tenths between 15.0 and 35.0, and so is
    every temperature an event reports; when the temperature draw is
    within [[-0.5, 0.5]], as [random.uniform] guarantees, the reported
    number of tenths is at most five away from the stored one, and the
    two floats differ by at most [0.5 + 2 ^ -47]. *)
Theorem temperature_walk s bid bay now delta r ev s' :
  reachable s ->
  self_bays s !! bid = Some bay ->
  (- (1 # 2) <= delta)%Q -> (delta <= 1 # 2)%Q ->
  generate_event s bid now delta r = Returns (ev, s') ->
  (exists m n,
      150 <= m <= 350 /\ 150 <= n <= 350 /\
      temperature_c bay = tenths m /\
      m_temperature_c (ev_metrics ev) = tenths n /\
      m - 5 <= n <= m + 5) /\
  (temperature_c bay - (1 # 2) - (1 # 2 ^ 47)
   <= m_temperature_c (ev_metrics ev))%Q /\
  (m_temperature_c (ev_metrics ev)
   <= temperature_c bay + (1 # 2) + (1 # 2 ^ 47))%Q.
Proof.
  intros Hreach Hbay Hd1 Hd2 Hcall.
  apply generate_event_inv in Hcall as (bay0 & Hbay0 & -> & _).
  assert (bay0 = bay) as -> by congruence.
  destruct (reachable_tenths _ Hreach _ _ Hbay) as (m & Hm & Ht).
  destruct (drift_walk bay m delta r Hm Ht Hd1 Hd2) as (n & Hn & Hd & Hmn).
  cbn [snapshot ev_metrics m_temperature_c].
  split; [exists m, n; auto |].
  rewrite Hd, Ht.
  destruct (tenths_near m) as [Hm1 Hm2]; [lia |].
  destruct (tenths_near n) as [Hn1 Hn2]; [lia |].
  change (2 ^ 48)%positive with 281474976710656%positive in *.
  change (2 ^ 47)%positive with 140737488355328%positive.
  assert (H1 : ((m # 10) - (1 # 2) <= n # 10)%Q) by (unfold Qle; simpl; lia).
  assert (H2 : (n # 10 <= (m # 10) + (1 # 2))%Q) by (unfold Qle; simpl; lia).
  split; lra.
Qed.

Lemma temperature_walk_witness :
  exists bay ev s' m n,
    self_bays Examples.sim0 !! "L1-A-001" = Some bay /\
    generate_event Examples.sim0 "L1-A-001" Examples.now0 (1 # 4) (1 # 2)
    = Returns (ev, s') /\
    temperature_c bay = tenths m /\
    m_temperature_c (ev_metrics ev) = tenths n /\
    m - 5 <= n <= m + 5 /\
    (m_temperature_c (ev_metrics ev)
     <= temperature_c bay + (1 # 2) + (1 # 2 ^ 47))%Q.
Proof.
  eexists _, _, _.
  assert (Hbay : self_bays Examples.sim0 !! "L1-A-001" = Some _)
    by (vm_compute; reflexivity).
  assert (Hcall : generate_event Examples.sim0 "L1-A-001" Examples.now0
                    (1 # 4) (1 # 2) = Returns (_, _)) by (vm_compute; reflexivity).
  assert (Hd1 : (- (1 # 2) <= 1 # 4)%Q) by (unfold Qle; cbn; lia).
  assert (Hd2 : (1 # 4 <= 1 # 2)%Q) by (unfold Qle; cbn; lia).
  destruct (temperature_walk _ _ _ _ _ _ _ _ sim0_reachable
              Hbay Hd1 Hd2 Hcall)
    as ((m & n & _ & _ & H1 & H2 & H3) & _ & H4).
  exists m, n. split; [exact Hbay |]. split; [exact Hcall |].
  split; [exact H1 |]. split; [exact H2 |]. split; [exact H3 | exact H4].
Defined.

(** *** The movement branch and the loop *)

Lemma movement_branch_inv s producer draw now delta r bid ev ok s2 :
  movement_branch s producer draw now delta r = Returns (bid, ev, ok, s2) ->
  exists s1,
    simulate_vehicle_movement s draw = Returns (bid, s1) /\
    generate_event s1 bid now delta r = Returns (ev, s2) /\
    publish_event producer (PyEvent ev) = Returns ok.
Proof.
  unfold movement_branch. intros H.
  apply bind_returns in H as ([bid1 s1] & Hmove & H).
  apply bind_returns in H as ([ev1 s21] & Hgen & H).
  apply bind_returns in H as (ok1 & Hpub & H).
  injection H as -> -> -> ->. eauto.
Qed.

(** X8.  When the movement branch of the loop completes, the event it
    handed to the publisher reports the chosen bay with its occupancy
    negated, the simulator holds that negated flag, and every other bay is
    untouched; this holds whether the publish succeeded or not, so a failed
    publish leaves the movement applied. *)
Theorem movement_branch_reports_flip s producer draw now delta r bid ev ok s2 :
  movement_branch s producer draw now delta r = Returns (bid, ev, ok, s2) ->
  exists bay bay2,
    self_bays s !! bid = Some bay /\
    self_bays s2 !! bid = Some bay2 /\
    ev_occupied ev = negb (occupied bay) /\
    occupied bay2 = negb (occupied bay) /\
    m_battery_pct (ev_metrics ev) = battery_pct bay2 /\
    (forall k, k <> bid -> self_bays s2 !! k = self_bays s !! k).
Proof.
  intros H. apply movement_branch_inv in H as (s1 & Hmove & Hgen & _).
  apply simulate_vehicle_movement_inv in Hmove as (bay & Hbay & ->).
  apply generate_event_inv in Hgen as (bay1 & Hbay1 & -> & ->).
  cbn [self_bays set_bays] in *. rewrite lookup_insert_eq in Hbay1.
  injection Hbay1 as <-.
  exists bay, (drift (flip bay) delta r).
  rewrite lookup_insert_eq. repeat split; try assumption.
  intros k Hne. rewrite !lookup_insert_ne by congruence. reflexivity.
Qed.

Lemma movement_branch_reports_flip_witness :
  exists bid ev s2 bay bay2,
    movement_branch Examples.sim0 Examples.producer_down 3 Examples.now0
                    (1 # 4) (1 # 2) = Returns (bid, ev, false, s2) /\
    self_bays Examples.sim0 !! bid = Some bay /\
    self_bays s2 !! bid = Some bay2 /\
    occupied bay2 = negb (occupied bay).
Proof.
  eexists _, _, _.
  assert (Hcall : movement_branch Examples.sim0 Examples.producer_down 3
                    Examples.now0 (1 # 4) (1 # 2) = Returns (_, _, false, _))
    by (vm_compute; reflexivity).
  destruct (movement_branch_reports_flip _ _ _ _ _ _ _ _ _ _ Hcall)
    as (bay & bay2 & H1 & H2 & _ & H4 & _).
  exists bay, bay2. repeat split; assumption.
Defined.

Lemma publish_event_returns producer ev :
  exists ok, publish_event producer (PyEvent ev) = Returns ok.
Proof.
  unfold publish_event, send, value_serializer.
  destruct (wait_on_metadata producer) as [[] | m1]; cbn; [| eauto].
  destruct (append producer ev) as [[] | m2]; cbn; [| eauto].
  destruct (future_get producer ev) as [[] | m3]; cbn; eauto.
Qed.

Lemma nonempty_step s s' :
  step s s' -> self_bays s <> ∅ -> self_bays s' <> ∅.
Proof.
  intros Hstep Hne He. apply Hne.
  apply (dom_empty_iff_L (D := gset string)).
  rewrite <- (step_dom _ _ Hstep), He. apply dom_empty_L.
Qed.

Lemma loop_body_returns interval ep producer iteration draw s :
  self_bays s <> ∅ -> 0 <= interval < 2 ^ 31 ->
  exists s' log,
    loop_body interval ep producer iteration draw s = Returns (s', log) /\
    rtc step s s'.
Proof.
  intros Hne Hi. unfold loop_body, sleep.
  assert ((interval <? 0) = false) as -> by lia.
  assert ((2 ^ 63 <=? interval * 10 ^ 9) = false) as -> by lia.
  assert (Hstatus : forall s1, self_bays s1 <> ∅ ->
            exists st, get_parking_status s1 = Returns st).
  { intros s1 Hne1. unfold get_parking_status, truediv.
    destruct (Z.of_nat (size (self_bays s1)) =? 0) eqn:E; [| cbn; eauto].
    exfalso. apply Hne1, map_size_empty_iff. lia. }
  destruct (flt (it_random draw) ep).
  - destruct (movement_then_event s (it_choice draw) (it_now draw)
                (it_uniform draw) (it_battery draw) Hne)
      as (bid & s1 & ev & s2 & Hmove & _ & _ & Hgen & _).
    destruct (publish_event_returns producer ev) as [ok Hok].
    unfold movement_branch. rewrite Hmove. cbn. rewrite Hgen. cbn.
    rewrite Hok. cbn.
    assert (Hrun : rtc step s s2).
    { eapply rtc_l; [eapply step_move; exact Hmove |].
      eapply rtc_once, step_event. exact Hgen. }
    assert (Hne2 : self_bays s2 <> ∅).
    { eapply nonempty_step; [eapply step_event; exact Hgen |].
      eapply nonempty_step; [eapply step_move; exact Hmove | exact Hne]. }
    destruct (iteration `mod` 10 =? 0).
    + destruct (Hstatus s2 Hne2) as [st ->]. cbn. eauto.
    + cbn. eauto.
  - cbn. destruct (iteration `mod` 10 =? 0).
    + destruct (Hstatus s Hne) as [st ->]. cbn. eauto using rtc_refl.
    + cbn. eauto using rtc_refl.
Qed.

Lemma rtc_step_nonempty s s' :
  rtc step s s' -> self_bays s <> ∅ -> self_bays s' <> ∅.
Proof.
  induction 1 as [| s s1 s2 Hstep _ IH]; [auto |].
  intros Hne. apply IH. eapply nonempty_step; eassumption.
Qed.

Lemma rtc_step_dom s s' :
  rtc step s s' -> dom (self_bays s') = dom (self_bays s).
Proof.
  induction 1 as [| s s1 s2 Hstep _ IH]; [reflexivity |].
  rewrite IH. apply step_dom, Hstep.
Qed.

(** With a negative interval the first iteration raises: [time.sleep]
    rejects it, after the movement and the status report. *)
Lemma loop_body_negative_interval interval ep producer iteration draw s :
  self_bays s <> ∅ -> interval < 0 ->
  loop_body interval ep producer iteration draw s
  = Raises (ValueError "sleep length must be non-negative").
Proof.
  intros Hne Hi.
  destruct (loop_body_returns 0 ep producer iteration draw s Hne)
    as (s' & log & H & _); [lia |].
  unfold loop_body in *.
  apply bind_returns in H as ([s1 log1] & H1 & H).
  apply bind_returns in H as (log2 & H2 & _).
  rewrite H1. cbn. rewrite H2. cbn. unfold sleep.
  assert ((interval <? 0) = true) as -> by lia. reflexivity.
Qed.

(** X9.  Started on a reachable simulator that has a bay, with an
    interval of at least 0 and less than [2 ^ 31] seconds, the loop
    completes any number of iterations without raising, whatever the
    broker does, and ends in a reachable state over the same bay ids;
    with a negative interval its first iteration raises the [ValueError]
    of [time.sleep]. *)
Theorem run_loop_never_raises interval ep producer iteration draws s :
  reachable s -> self_bays s <> ∅ ->
  (0 <= interval < 2 ^ 31 ->
   exists s' log,
     run_loop interval ep producer iteration draws s = Returns (s', log) /\
     reachable s' /\ dom (self_bays s') = dom (self_bays s)) /\
  (interval < 0 -> draws <> [] ->
   run_loop interval ep producer iteration draws s
   = Raises (ValueError "sleep length must be non-negative")).
Proof.
  intros Hreach Hne. split.
  - intros Hi.
    assert (H : exists s' log,
               run_loop interval ep producer iteration draws s
               = Returns (s', log) /\
               rtc step s s').
    { clear Hreach. revert iteration s Hne.
      induction draws as [| d ds IH]; intros iteration s Hne; cbn.
      - exists s, []. split; [reflexivity | apply rtc_refl].
      - destruct (loop_body_returns interval ep producer (iteration + 1) d s
                    Hne Hi) as (s1 & log1 & -> & Hrun1). cbn.
        destruct (IH (iteration + 1) s1 (rtc_step_nonempty _ _ Hrun1 Hne))
          as (s2 & log2 & -> & Hrun2). cbn.
        exists s2, (log1 ++ log2). split; [reflexivity |].
        etransitivity; eassumption. }
    destruct H as (s' & log & Hrun & Hsteps).
    exists s', log. split; [exact Hrun |].
    split; [eapply rtc_step_reachable; eassumption | apply rtc_step_dom, Hsteps].
  - intros Hi Hd. destruct draws as [| d ds]; [congruence |].
    cbn [run_loop].
    rewrite (loop_body_negative_interval _ _ _ _ _ _ Hne Hi). reflexivity.
Qed.

Lemma run_loop_never_raises_witness :
  (exists s' log,
      run_loop 3 (3 # 10) Examples.producer_down 0 Examples.draws0
               Examples.sim0
      = Returns (s', log) /\
      dom (self_bays s') = dom (self_bays Examples.sim0)) /\
  run_loop (-1) (3 # 10) Examples.producer_ok 0 Examples.draws0 Examples.sim0
  = Raises (ValueError "sleep length must be non-negative").
Proof.
  assert (Hne : self_bays Examples.sim0 <> ∅).
  { intros He. apply (f_equal (fun m => m !! "L1-A-001")) in He.
    vm_compute in He. discriminate. }
  split.
  - destruct (run_loop_never_raises 3 (3 # 10) Examples.producer_down 0
                Examples.draws0 Examples.sim0 sim0_reachable Hne)
      as [H _].
    destruct (H ltac:(lia)) as (s' & log & H1 & _ & H3).
    exists s', log. split; assumption.
  - destruct (run_loop_never_raises (-1) (3 # 10) Examples.producer_ok 0
                Examples.draws0 Examples.sim0 sim0_reachable Hne)
      as [_ H].
    apply H; [lia | discriminate].
Defined.

Lemma loop_body_status_count interval ep producer iteration draw s s' log :
  loop_body interval ep producer iteration draw s = Returns (s', log) ->
  List.length (List.filter is_status log)
  = if iteration `mod` 10 =? 0 then 1%nat else 0%nat.
Proof.
  unfold loop_body. intros H.
  apply bind_returns in H as ([s1 log1] & H1 & H).
  apply bind_returns in H as (log2 & H2 & H).
  apply bind_returns in H as ([] & _ & H).
  injection H as <- <-.
  assert (Hlog1 : List.filter is_status log1 = []).
  { destruct (flt (it_random draw) ep).
    - apply bind_returns in H1 as ([[[bid ev] ok] s2] & _ & H1).
      injection H1 as _ <-. destruct ok; reflexivity.
    - injection H1 as _ <-. reflexivity. }
  rewrite List.filter_app, Hlog1. cbn [app].
  destruct (iteration `mod` 10 =? 0).
  - apply bind_returns in H2 as (st & _ & H2). injection H2 as <-. reflexivity.
  - injection H2 as <-. reflexivity.
Qed.

(** X10.  The loop prints the aggregate status exactly at the iterations
    whose number is a multiple of 10: over a run of [n] iterations started
    with the counter at [i], the log holds [(i + n) / 10 - i / 10] status
    entries, [n / 10] for the counter's initial value 0, whether or not
    any movement was published. *)
Theorem status_every_tenth interval ep producer iteration draws s s' log :
  run_loop interval ep producer iteration draws s = Returns (s', log) ->
  Z.of_nat (List.length (List.filter is_status log))
  = (iteration + Z.of_nat (List.length draws)) / 10 - iteration / 10.
Proof.
  revert iteration s s' log.
  induction draws as [| d ds IH]; intros iteration s s' log H.
  - injection H as _ <-. cbn. rewrite Z.add_0_r. lia.
  - cbn [run_loop] in H.
    apply bind_returns in H as ([s1 log1] & H1 & H).
    apply bind_returns in H as ([s2 log2] & H2 & H).
    injection H as _ <-.
    rewrite List.filter_app, length_app, Nat2Z.inj_add.
    rewrite (IH _ _ _ _ H2), (loop_body_status_count _ _ _ _ _ _ _ _ H1).
    cbn [List.length]. rewrite Nat2Z.inj_succ.
    replace (iteration + Z.succ (Z.of_nat (List.length ds)))
      with (iteration + 1 + Z.of_nat (List.length ds)) by lia.
    destruct (Z.eqb_spec ((iteration + 1) `mod` 10) 0) as [E | E];
      pose proof (Z.div_mod (iteration + 1) 10 ltac:(lia));
      pose proof (Z.div_mod iteration 10 ltac:(lia));
      pose proof (Z.mod_pos_bound (iteration + 1) 10 ltac:(lia));
      pose proof (Z.mod_pos_bound iteration 10 ltac:(lia));
      lia.
Qed.

Lemma status_every_tenth_witness :
  exists s' log,
    run_loop 3 (3 # 10) Examples.producer_ok 0 Examples.draws0 Examples.sim0
    = Returns (s', log) /\
    List.length (List.filter is_status log) = 1%nat.
Proof.
  eexists _, _.
  assert (Hcall : run_loop 3 (3 # 10) Examples.producer_ok 0 Examples.draws0
                    Examples.sim0 = Returns (_, _)) by (vm_compute; reflexivity).
  split; [exact Hcall |].
  pose proof (status_every_tenth _ _ _ _ _ _ _ _ Hcall) as H.
  change ((0 + Z.of_nat (List.length Examples.draws0)) / 10 - 0 / 10) with 1 in H.
  lia.
Defined.

(** *** Bay identifiers *)

Lemma string_app_cons (c : ascii) (s t : string) :
  String c s +:+ t = String c (s +:+ t).
Proof. reflexivity. Qed.

Lemma string_app_nil_l (t : string) : EmptyString +:+ t = t.
Proof. reflexivity. Qed.

Lemma string_length_app (s t : string) :
  String.length (s +:+ t) = (String.length s + String.length t)%nat.
Proof.
  induction s as [| c s IH]; [reflexivity |].
  rewrite string_app_cons. cbn. rewrite IH. reflexivity.
Qed.

Lemma string_app_assoc (s t u : string) : (s +:+ t) +:+ u = s +:+ (t +:+ u).
Proof.
  induction s as [| c s IH]; [reflexivity |].
  rewrite !string_app_cons, IH. reflexivity.
Qed.

Lemma string_app_nil_r (s : string) : s +:+ EmptyString = s.
Proof.
  induction s as [| c s IH]; [reflexivity |].
  rewrite string_app_cons, IH. reflexivity.
Qed.

Lemma in_string_app (c : ascii) (s t : string) :
  In c (String.list_ascii_of_string (s +:+ t)) ->
  In c (String.list_ascii_of_string s) \/ In c (String.list_ascii_of_string t).
Proof.
  induction s as [| c' s IH]; [rewrite string_app_nil_l; tauto |].
  rewrite string_app_cons. cbn.
  intros [-> | H]; [tauto |]. destruct (IH H); tauto.
Qed.

Lemma pretty_N_char_not_dash (d : N) : pretty_N_char d <> "-"%char.
Proof. unfold pretty_N_char. repeat case_match; discriminate. Qed.

Lemma pretty_N_char_not_zero (d : N) : (0 < d)%N -> pretty_N_char d <> "0"%char.
Proof. unfold pretty_N_char. repeat case_match; discriminate. Qed.

(** The digits [pretty_N_go] puts in front of its accumulator. *)
Lemma pretty_N_go_digits (x : N) (s : string) :
  exists t, pretty_N_go x s = t +:+ s /\
    (forall c, In c (String.list_ascii_of_string t) -> c <> "-"%char) /\
    ((0 < x)%N -> exists c t', t = String c t' /\ c <> "0"%char).
Proof.
  revert s. induction (N.lt_wf_0 x) as [x _ IH]. intros s.
  destruct (N.eq_dec x 0%N) as [-> | Hx].
  - exists EmptyString. rewrite pretty_N_go_0. split; [reflexivity |].
    split; [intros c [] | lia].
  - assert (Hpos : (0 < x)%N) by lia.
    rewrite (pretty_N_go_step x s Hpos).
    assert (Hlt : (x `div` 10 < x)%N) by (apply N.div_lt; lia).
    destruct (IH (x `div` 10)%N Hlt (String (pretty_N_char (x `mod` 10)%N) s))
      as (t & Ht & Hnd & Hfirst).
    exists (t +:+ String (pretty_N_char (x `mod` 10)%N) EmptyString).
    split; [| split].
    + rewrite Ht, string_app_assoc. reflexivity.
    + intros c Hc. apply in_string_app in Hc as [Hin | [<- | []]];
        [apply Hnd, Hin | apply pretty_N_char_not_dash].
    + intros _. destruct (N.eq_dec (x `div` 10)%N 0%N) as [Hd | Hd].
      * rewrite Hd, pretty_N_go_0 in Ht.
        assert (t = EmptyString) as ->.
        { destruct t as [| c t]; [reflexivity |].
          apply (f_equal String.length) in Ht.
          rewrite string_length_app in Ht. cbn in Ht. lia. }
        rewrite string_app_nil_l. eexists _, _. split; [reflexivity |].
        apply pretty_N_char_not_zero.
        assert (Hsmall : (x < 10)%N).
        { destruct (N.lt_ge_cases x 10) as [Hl | Hg]; [exact Hl |].
          assert (H10 : (0 < 10 <= x)%N) by (split; [reflexivity | exact Hg]).
          pose proof (N.div_str_pos x 10 H10) as Hq. rewrite Hd in Hq.
          exfalso. exact (N.lt_irrefl _ Hq). }
        rewrite (N.mod_small x 10 Hsmall). exact Hpos.
      * destruct Hfirst as (c & t' & -> & Hc); [apply N.neq_0_lt_0, Hd |].
        rewrite string_app_cons. eauto.
Qed.

Lemma pretty_pos_digits (z : Z) :
  0 < z ->
  (forall c, In c (String.list_ascii_of_string (pretty z)) -> c <> "-"%char) /\
  exists c t, pretty z = String c t /\ c <> "0"%char.
Proof.
  intros Hz. destruct z as [| p | p]; try lia.
  change (pretty (Z.pos p)) with (pretty_N_go (N.pos p) EmptyString).
  destruct (pretty_N_go_digits (N.pos p) EmptyString) as (t & Ht & Hnd & Hfirst).
  rewrite Ht, string_app_nil_r. split; [exact Hnd |].
  apply Hfirst. lia.
Qed.

(** Two dash-free prefixes followed by a dash split a string the same
    way. *)
Lemma dash_split (s s' r r' : string) :
  (forall c, In c (String.list_ascii_of_string s) -> c <> "-"%char) ->
  (forall c, In c (String.list_ascii_of_string s') -> c <> "-"%char) ->
  s +:+ String "-" r = s' +:+ String "-" r' -> s = s' /\ r = r'.
Proof.
  revert s'. induction s as [| c s IH]; intros [| c' s'] Hs Hs' H;
    rewrite ?string_app_cons, ?string_app_nil_l in H; cbn in Hs, Hs'.
  - injection H as ->. auto.
  - injection H as <- _. exfalso. apply (Hs' "-"%char); auto.
  - injection H as -> _. exfalso. apply (Hs "-"%char); auto.
  - injection H as -> H.
    destruct (IH s') as [-> ->]; auto.
Qed.


Lemma zeros_split (k k' : nat) (c c' : ascii) (t t' : string) :
  c <> "0"%char -> c' <> "0"%char ->
  zeros k +:+ String c t = zeros k' +:+ String c' t' ->
  k = k' /\ String c t = String c' t'.
Proof.
  intros Hc Hc'. revert k'.
  induction k as [| k IH]; intros [| k'] H; cbn [zeros] in H;
    rewrite ?string_app_cons, ?string_app_nil_l in H.
  - auto.
  - injection H as -> _. contradiction.
  - injection H as <- _. contradiction.
  - injection H as H. destruct (IH k' H) as [-> ->]. auto.
Qed.

Lemma format_03d_inj (n n' : Z) :
  0 < n -> 0 < n' -> format_03d n = format_03d n' -> n = n'.
Proof.
  intros Hn Hn' H. unfold format_03d in H. cbv zeta in H.
  destruct (pretty_pos_digits n Hn) as (_ & c & t & Hp & Hc).
  destruct (pretty_pos_digits n' Hn') as (_ & c' & t' & Hp' & Hc').
  apply (inj pretty). rewrite Hp, Hp' in *.
  exact (proj2 (zeros_split _ _ _ _ _ _ Hc Hc' H)).
Qed.

(** Distinct (level, bay) pairs get distinct identifiers. *)
Lemma format_bay_id_inj (lvl n lvl' n' : Z) :
  0 < lvl -> 0 < n -> 0 < lvl' -> 0 < n' ->
  format_bay_id lvl n = format_bay_id lvl' n' -> lvl = lvl' /\ n = n'.
Proof.
  intros Hl Hn Hl' Hn' H. unfold format_bay_id in H.
  rewrite !string_app_cons, !string_app_nil_l in H. injection H as H.
  destruct (pretty_pos_digits lvl Hl) as (Hd & _).
  destruct (pretty_pos_digits lvl' Hl') as (Hd' & _).
  apply dash_split in H as [H1 H2]; [| assumption | assumption].
  injection H2 as H2.
  split; [apply (inj pretty), H1 | apply format_03d_inj; assumption].
Qed.

Lemma NoDup_range (a b : Z) : List.NoDup (range a b).
Proof.
  unfold range. generalize (Z.to_nat (b - a)) as len. generalize 0%nat as start.
  intros start len. revert start.
  induction len as [| len IH]; intros start; cbn; constructor.
  - rewrite in_map_iff. intros (i & Hi & Hin). apply in_seq in Hin. lia.
  - apply IH.
Qed.

Lemma length_range (a b : Z) : List.length (range a b) = Z.to_nat (b - a).
Proof. unfold range. rewrite List.length_map, List.length_seq. reflexivity. Qed.

Section FoldInsert.
Context {V : Type} (key : Z -> Z -> string) (val : Z -> Z -> V).
Context (ls ns : list Z).
Hypothesis key_inj :
  forall l n l' n', In l ls -> In n ns -> In l' ls -> In n' ns ->
                    key l n = key l' n' -> l = l' /\ n = n'.

Lemma inner_fold (l : Z) (ns' : list Z) (m : gmap string V) :
  In l ls -> List.NoDup ns' -> (forall n, In n ns' -> In n ns) ->
  (forall n, In n ns' -> m !! key l n = None) ->
  (forall n, In n ns' ->
     foldl (fun m n => <[key l n := val l n]> m) m ns' !! key l n
     = Some (val l n)) /\
  (forall k, (forall n, In n ns' -> k <> key l n) ->
     foldl (fun m n => <[key l n := val l n]> m) m ns' !! k = m !! k) /\
  size (foldl (fun m n => <[key l n := val l n]> m) m ns')
  = (size m + List.length ns')%nat.
Proof.
  intros Hl. revert m.
  induction ns' as [| n0 ns' IH]; intros m Hnd Hsub Hfresh; cbn [foldl].
  - split; [intros n [] |]. split; [reflexivity | cbn; lia].
  - apply List.NoDup_cons_iff in Hnd as [Hn0 Hnd].
    assert (Hne : forall n, In n ns' -> key l n0 <> key l n).
    { intros n Hn Heq.
      destruct (key_inj l n0 l n) as [_ ->]; auto; [apply Hsub; left; reflexivity
                                                   | apply Hsub; right; exact Hn]. }
    destruct (IH (<[key l n0 := val l n0]> m) Hnd) as (H1 & H2 & H3).
    { intros n Hn. apply Hsub. right. exact Hn. }
    { intros n Hn. rewrite lookup_insert_ne by (apply Hne, Hn).
      apply Hfresh. right. exact Hn. }
    split; [| split].
    + intros n [<- | Hn]; [| apply H1, Hn].
      rewrite (H2 _ Hne). apply lookup_insert_eq.
    + intros k Hk. rewrite H2 by (intros n Hn; apply Hk; right; exact Hn).
      apply lookup_insert_ne. intros Heq. apply (Hk n0); [left; reflexivity | congruence].
    + rewrite H3, map_size_insert_None by (apply Hfresh; left; reflexivity).
      cbn [List.length]. lia.
Qed.

Lemma outer_fold (ls' : list Z) (m : gmap string V) :
  List.NoDup ls' -> List.NoDup ns -> (forall l, In l ls' -> In l ls) ->
  (forall l n, In l ls' -> In n ns -> m !! key l n = None) ->
  (forall l n, In l ls' -> In n ns ->
     foldl (fun m l => foldl (fun m n => <[key l n := val l n]> m) m ns) m ls'
       !! key l n = Some (val l n)) /\
  (forall k, (forall l n, In l ls' -> In n ns -> k <> key l n) ->
     foldl (fun m l => foldl (fun m n => <[key l n := val l n]> m) m ns) m ls'
       !! k = m !! k) /\
  size (foldl (fun m l => foldl (fun m n => <[key l n := val l n]> m) m ns) m ls')
  = (size m + List.length ls' * List.length ns)%nat.
Proof.
  intros Hnd Hndn. revert m Hnd.
  induction ls' as [| l0 ls' IH]; intros m Hnd Hsub Hfresh; cbn [foldl].
  - split; [intros l n [] |]. split; [reflexivity | cbn; lia].
  - apply List.NoDup_cons_iff in Hnd as [Hl0 Hnd].
    assert (Hin0 : In l0 ls) by (apply Hsub; left; reflexivity).
    destruct (inner_fold l0 ns m Hin0 Hndn (fun n H => H)) as (I1 & I2 & I3).
    { intros n Hn. apply Hfresh; [left; reflexivity | exact Hn]. }
    assert (Hne : forall l n n', In l ls' -> In n ns -> In n' ns ->
              key l n <> key l0 n').
    { intros l n n' Hl Hn Hn' Heq.
      destruct (key_inj l n l0 n') as [-> _]; auto.
      apply Hsub. right. exact Hl. }
    destruct (IH (foldl (fun m n => <[key l0 n := val l0 n]> m) m ns) Hnd)
      as (H1 & H2 & H3).
    { intros l Hl. apply Hsub. right. exact Hl. }
    { intros l n Hl Hn. rewrite I2 by (intros n' Hn'; apply Hne; assumption).
      apply Hfresh; [right; exact Hl | exact Hn]. }
    split; [| split].
    + intros l n [<- | Hl] Hn; [| apply H1; assumption].
      rewrite H2; [apply I1, Hn |].
      intros l n' Hl Hn' Heq. apply (Hne l n' n Hl Hn' Hn). congruence.
    + intros k Hk.
      rewrite H2 by (intros l n Hl Hn; apply Hk; [right; exact Hl | exact Hn]).
      apply I2. intros n Hn. apply Hk; [left; reflexivity | exact Hn].
    + rewrite H3, I3. cbn [List.length]. lia.
Qed.
End FoldInsert.

Lemma _initialize_bays_grid pid levels bays_per_level rnd :
  (forall lvl n,
      1 <= lvl <= levels -> 1 <= n <= bays_per_level ->
      _initialize_bays pid levels bays_per_level rnd !! format_bay_id lvl n
      = Some (init_bay pid rnd lvl n)) /\
  size (_initialize_bays pid levels bays_per_level rnd)
  = (Z.to_nat levels * Z.to_nat bays_per_level)%nat.
Proof.
  destruct (outer_fold format_bay_id (init_bay pid rnd)
              (range 1 (levels + 1)) (range 1 (bays_per_level + 1))
              (fun l n l' n' Hl Hn Hl' Hn' =>
                 format_bay_id_inj l n l' n'
                   ltac:(apply in_range in Hl; lia)
                   ltac:(apply in_range in Hn; lia)
                   ltac:(apply in_range in Hl'; lia)
                   ltac:(apply in_range in Hn'; lia))
              (range 1 (levels + 1)) ∅
              (NoDup_range _ _) (NoDup_range _ _) (fun l H => H)
              (fun l n _ _ => lookup_empty _)) as (H1 & _ & H3).
  split.
  - intros lvl n Hl Hn. apply H1; apply in_range; lia.
  - unfold _initialize_bays. rewrite H3, map_size_empty, !length_range.
    f_equal; lia.
Qed.

(** X11.  The constructor stores, for every level in [[1, levels]] and
    every bay number in [[1, bays_per_level]], the freshly drawn bay under
    the key [L{level}-A-{bay:03d}]; distinct pairs get distinct keys, so
    the simulator holds exactly [levels * bays_per_level] bays (none when
    either argument is zero or negative). *)
Theorem _initialize_bays_spec pid levels bays_per_level rnd :
  (forall lvl n,
      1 <= lvl <= levels -> 1 <= n <= bays_per_level ->
      _initialize_bays pid levels bays_per_level rnd !! format_bay_id lvl n
      = Some (init_bay pid rnd lvl n)) /\
  (forall lvl n lvl' n',
      0 < lvl -> 0 < n -> 0 < lvl' -> 0 < n' ->
      format_bay_id lvl n = format_bay_id lvl' n' -> lvl = lvl' /\ n = n') /\
  size (_initialize_bays pid levels bays_per_level rnd)
  = (Z.to_nat levels * Z.to_nat bays_per_level)%nat.
Proof.
  destruct (_initialize_bays_grid pid levels bays_per_level rnd) as [H1 H2].
  split; [exact H1 |]. split; [apply format_bay_id_inj | exact H2].
Qed.

Lemma _initialize_bays_spec_witness :
  _initialize_bays "PK-CADIZ-01" 2 10 Examples.rnd0 !! "L2-A-010"
  = Some (init_bay "PK-CADIZ-01" Examples.rnd0 2 10) /\
  size (self_bays Examples.sim0) = 20%nat.
Proof.
  destruct (_initialize_bays_spec "PK-CADIZ-01" 2 10 Examples.rnd0)
    as (H1 & _ & H3).
  split; [apply (H1 2 10); lia | exact H3].
Defined.

Lemma reachable_dom s :
  reachable s ->
  exists rnd,
    dom (self_bays s)
    = dom (_initialize_bays (self_parking_id s) (self_levels s)
                            (self_bays_per_level s) rnd).
Proof.
  induction 1 as [pid levels bpl rnd _ | s s' _ [rnd IH] Hstep].
  - exists rnd. reflexivity.
  - exists rnd. rewrite (step_dom _ _ Hstep), IH.
    destruct Hstep as [s bid now delta r ev s' H | s draw bid s' H].
    + apply generate_event_inv in H as (bay & _ & _ & ->). reflexivity.
    + apply simulate_vehicle_movement_inv in H as (bay & _ & ->). reflexivity.
Qed.

(** X12.  On a reachable simulator the stored ids are exactly the ids
    [L{level}-A-{bay:03d}] of the configured grid, so [total_bays] is
    [levels * bays_per_level] for as long as the simulator runs, and
    [generate_event] returns for an id of the grid and raises [KeyError]
    with the id for any other string. *)
Theorem reachable_keys s :
  reachable s ->
  (forall bid, is_Some (self_bays s !! bid) <->
               exists lvl n, 1 <= lvl <= self_levels s /\
                             1 <= n <= self_bays_per_level s /\
                             bid = format_bay_id lvl n) /\
  size (self_bays s)
  = (Z.to_nat (self_levels s) * Z.to_nat (self_bays_per_level s))%nat /\
  (forall bid now delta r,
      (exists lvl n, 1 <= lvl <= self_levels s /\
                     1 <= n <= self_bays_per_level s /\
                     bid = format_bay_id lvl n) /\
      (exists ev s', generate_event s bid now delta r = Returns (ev, s'))
      \/
      (~ (exists lvl n, 1 <= lvl <= self_levels s /\
                        1 <= n <= self_bays_per_level s /\
                        bid = format_bay_id lvl n)) /\
      generate_event s bid now delta r = Raises (KeyError bid)).
Proof.
  intros Hreach.
  destruct (reachable_dom s Hreach) as [rnd Hdom].
  pose proof (reachable_well_labelled s Hreach) as Hlab.
  destruct (_initialize_bays_grid (self_parking_id s) (self_levels s)
              (self_bays_per_level s) rnd) as (Hinit & Hsize).
  assert (Hkeys : forall bid, is_Some (self_bays s !! bid) <->
            exists lvl n, 1 <= lvl <= self_levels s /\
                          1 <= n <= self_bays_per_level s /\
                          bid = format_bay_id lvl n).
  { intros bid. split.
    - intros [bay Hbay].
      destruct (Hlab _ _ Hbay) as (_ & _ & lvl & n & Hl & Hn & Hk & _). eauto.
    - intros (lvl & n & Hl & Hn & ->).
      apply (elem_of_dom (D := gset string)). rewrite Hdom.
      apply (elem_of_dom (D := gset string)). rewrite (Hinit lvl n Hl Hn). eauto. }
  split; [exact Hkeys |]. split.
  - rewrite <- Hsize, <- !size_dom, Hdom. reflexivity.
  - intros bid now delta r. unfold generate_event, getitem.
    destruct (self_bays s !! bid) as [bay |] eqn:Hbay.
    + left. split; [apply Hkeys; eauto | cbn; eauto].
    + right. split; [| reflexivity].
      intros Hgrid. apply Hkeys in Hgrid as [bay Hbay']. congruence.
Qed.

Lemma reachable_keys_witness :
  size (self_bays Examples.sim0) = 20%nat /\
  is_Some (self_bays Examples.sim0 !! "L2-A-010").
Proof.
  destruct (reachable_keys Examples.sim0 sim0_reachable) as (Hkeys & Hsize & _).
  split; [exact Hsize |].
  apply Hkeys. exists 2, 10. cbn. repeat split; lia.
Defined.

End SensoresMore.

(** ** Further properties of the query service *)

Module AppMore.
Import Py Mongo App MongoFacts AppSpec.

Lemma string_leb_total_key (a b : BayDoc) :
  String.leb (bay_id a) (bay_id b) = true \/
  String.leb (bay_id b) (bay_id a) = true.
Proof. apply String.leb_total. Qed.

Lemma string_leb_trans (x y z : string) :
  String.leb x y = true -> String.leb y z = true -> String.leb x z = true.
Proof.
  intros H1 H2. apply Is_true_true.
  apply (transitivity (R := String.le) (y := y)); apply Is_true_true; assumption.
Qed.

Lemma find_sorted_by_bay_id (docs : list BayDoc) (filter : BayDoc -> bool) :
  exists data,
    find_sorted (Returns docs) filter bay_id String.leb = Returns data /\
    Permutation data (List.filter filter docs) /\
    StronglySorted (fun a b => String.leb (bay_id a) (bay_id b) = true) data.
Proof.
  eexists. split; [reflexivity |]. split; [apply sort_by_perm |].
  apply sort_by_sorted.
  - intros a b. apply string_leb_total_key.
  - intros a b c. apply string_leb_trans.
Qed.

(** X13.  Whatever the [bays] collection holds, [/api/bays] answers 200
    with every document of the collection, each once, in ascending order
    of [bay_id], and [count] is their number. *)
Theorem get_bays_sorted db docs now :
  bays db = Returns docs ->
  exists res,
    get_bays (Some db) now = (Ok res, 200) /\
    Permutation (bl_data res) docs /\
    StronglySorted (fun a b => String.leb (bay_id a) (bay_id b) = true)
                   (bl_data res) /\
    bl_count res = Z.of_nat (List.length docs) /\
    bl_success res = true /\ bl_timestamp res = now.
Proof.
  intros Hdocs. unfold get_bays. rewrite Hdocs.
  destruct (find_sorted_by_bay_id docs match_all) as (data & -> & Hperm & Hsorted).
  rewrite (filter_all match_all) in Hperm by reflexivity.
  eexists. split; [reflexivity |]. cbn.
  split; [exact Hperm |]. split; [exact Hsorted |].
  split; [rewrite (Permutation_length Hperm); reflexivity | auto].
Qed.

Lemma get_bays_sorted_witness :
  exists res,
    get_bays (Examples.db_of Examples.store0) Examples.now0 = (Ok res, 200) /\
    bl_count res = 6 /\
    bay_id <$> bl_data res
    = ["L1-A-001"; "L1-A-002"; "L2-A-001"; "L2-A-002"; "L3-A-001"; "TEST-001"].
Proof.
  destruct (get_bays_sorted
              {| cmd_ping := Returns (); bays := Returns Examples.store0;
                 events := Returns [Examples.event0] |}
              Examples.store0 Examples.now0 eq_refl) as (res & Hres & _ & _ & Hc & _).
  exists res. split; [exact Hres |]. split; [exact Hc |].
  assert (Hval : get_bays (Examples.db_of Examples.store0) Examples.now0
                 = (Ok _, 200)) by (vm_compute; reflexivity).
  unfold Examples.db_of in Hval. rewrite Hres in Hval.
  injection Hval as ->. reflexivity.
Defined.

(** X14.  Whatever the [bays] collection holds, [/api/bays/level/<level>]
    answers 200; [data] holds exactly the documents whose level is the
    upper-cased argument, in ascending order of [bay_id], and [count] is
    their number; the explanatory message is present exactly when there is
    no such document; and two arguments with the same upper-casing get the
    same answer. *)
Theorem get_bays_by_level_spec upper db docs lvl :
  bays db = Returns docs ->
  (exists res,
      get_bays_by_level upper (Some db) lvl = (Ok res, 200) /\
      ll_level res = upper lvl /\
      Permutation (ll_data res) (List.filter (match_level (upper lvl)) docs) /\
      (forall d, d ∈ ll_data res <-> d ∈ docs /\ level d = Some (upper lvl)) /\
      StronglySorted (fun a b => String.leb (bay_id a) (bay_id b) = true)
                     (ll_data res) /\
      ll_count res = Z.of_nat (List.length (ll_data res)) /\
      (ll_data res = [] <-> ll_message res <> None) /\
      (ll_data res = [] <-> forall d, d ∈ docs -> level d <> Some (upper lvl))) /\
  (forall lvl', upper lvl' = upper lvl ->
                get_bays_by_level upper (Some db) lvl'
                = get_bays_by_level upper (Some db) lvl).
Proof.
  intros Hdocs. split.
  2: { intros lvl' Heq. unfold get_bays_by_level. rewrite Heq. reflexivity. }
  unfold get_bays_by_level. rewrite Hdocs. cbv zeta.
  destruct (find_sorted_by_bay_id docs (match_level (upper lvl)))
    as (data & -> & Hperm & Hsorted).
  assert (Hmem : forall d, d ∈ data <-> d ∈ docs /\ level d = Some (upper lvl)).
  { intros d. rewrite Hperm, !list_elem_of_In, filter_In. unfold match_level.
    rewrite bool_decide_eq_true. reflexivity. }
  assert (Hnone : data = [] <-> forall d, d ∈ docs -> level d <> Some (upper lvl)).
  { split.
    - intros -> d Hd Hl. apply (not_elem_of_nil d). apply Hmem. auto.
    - intros Hall. destruct data as [| d data]; [reflexivity |].
      exfalso. destruct (proj1 (Hmem d) (list_elem_of_here _ _)) as [Hd Hl].
      exact (Hall d Hd Hl). }
  destruct data as [| d data].
  - eexists. split; [reflexivity |]. cbn. repeat split; try assumption;
      try apply Hmem; try apply Hnone; try discriminate; auto.
  - eexists. split; [reflexivity |]. cbn [ll_level ll_data ll_count ll_message].
    split; [reflexivity |]. split; [exact Hperm |]. split; [exact Hmem |].
    split; [exact Hsorted |]. split; [reflexivity |].
    split; [| exact Hnone].
    split; [discriminate | intros H; exfalso; apply H; reflexivity].
Qed.

Lemma get_bays_by_level_spec_witness :
  (exists res,
      get_bays_by_level Examples.ascii_upper (Examples.db_of Examples.store0) "l2"
      = (Ok res, 200) /\
      ll_level res = "L2" /\ ll_count res = 2) /\
  (exists res,
      get_bays_by_level Examples.ascii_upper (Examples.db_of Examples.store0) "l9"
      = (Ok res, 200) /\
      ll_data res = [] /\ ll_message res <> None).
Proof.
  split.
  - destruct (get_bays_by_level_spec Examples.ascii_upper
                {| cmd_ping := Returns (); bays := Returns Examples.store0;
                   events := Returns [Examples.event0] |}
                Examples.store0 "l2" eq_refl) as [(res & Hres & Hl & _) _].
    exists res. split; [exact Hres |]. split; [exact Hl |].
    assert (Hval : get_bays_by_level Examples.ascii_upper
                     (Examples.db_of Examples.store0) "l2" = (Ok _, 200))
      by (vm_compute; reflexivity).
    unfold Examples.db_of in Hval. rewrite Hres in Hval.
    injection Hval as ->. reflexivity.
  - destruct (get_bays_by_level_spec Examples.ascii_upper
                {| cmd_ping := Returns (); bays := Returns Examples.store0;
                   events := Returns [Examples.event0] |}
                Examples.store0 "l9" eq_refl)
      as [(res & Hres & _ & _ & _ & _ & _ & Hmsg & Hnone) _].
    exists res. split; [exact Hres |].
    assert (Hempty : ll_data res = []).
    { apply Hnone. intros d Hd Hl. vm_compute in Hl.
      repeat (apply elem_of_cons in Hd as [-> | Hd]; [discriminate |]).
      apply not_elem_of_nil in Hd. exact Hd. }
    split; [exact Hempty | apply Hmsg, Hempty].
Defined.

(** *** Which answers are errors *)

Lemma getitem_battery_selected (d : BayDoc) (x : Z) :
  path_battery d = Some x -> getitem_battery d = Returns x.
Proof.
  unfold path_battery, getitem_battery.
  destruct (metrics d) as [m |]; cbn; [| discriminate].
  intros ->. reflexivity.
Qed.

Lemma low_battery_selection_has_battery (docs : list BayDoc) (d : BayDoc) :
  In d (sort_by (fun a b => key_le_Z (path_battery a) (path_battery b))
                (List.filter (match_battery_lt low_battery_threshold) docs)) ->
  exists x, path_battery d = Some x.
Proof.
  intros Hin.
  apply (Permutation_in _ (sort_by_perm _ _)) in Hin.
  apply filter_In in Hin as [_ Hlt]. unfold match_battery_lt in Hlt.
  destruct (path_battery d) as [x |]; [eauto | discriminate].
Qed.

Lemma get_low_battery_bays_ok (db : Database) (docs : list BayDoc) :
  bays db = Returns docs ->
  exists res, get_low_battery_bays (Some db) = (Ok res, 200).
Proof.
  intros Hdocs. unfold get_low_battery_bays, low_battery_bays, find_sorted.
  rewrite Hdocs. cbn.
  set (low := sort_by _ _).
  rewrite (comprehension_returns
             (fun b => x ← getitem_battery b; mret (x <? 10))
             (fun b => match path_battery b with
                       | Some x => x <? 10 | None => false end)).
  2: { intros d Hin.
       destruct (low_battery_selection_has_battery docs d Hin) as [x Hx].
       rewrite (getitem_battery_selected d x Hx), Hx. reflexivity. }
  cbn.
  rewrite (comprehension_returns
             (fun b => x ← getitem_battery b; mret ((10 <=? x) && (x <? 20)))
             (fun b => match path_battery b with
                       | Some x => (10 <=? x) && (x <? 20) | None => false end)).
  2: { intros d Hin.
       destruct (low_battery_selection_has_battery docs d Hin) as [x Hx].
       rewrite (getitem_battery_selected d x Hx), Hx. reflexivity. }
  cbn. eauto.
Qed.

Lemma get_stats_ok (db : Database) (docs : list BayDoc) (now : string) :
  bays db = Returns docs ->
  exists stats,
    get_stats (Some db) now = (Ok stats, 200) /\
    s_total stats = Z.of_nat (List.length docs) /\
    s_occupied stats = Z.of_nat (List.length (List.filter match_occupied docs)) /\
    s_free stats = s_total stats - s_occupied stats /\
    exists gs lss,
      gs ≡ₚ group_by_level docs /\
      StronglySorted (fun a b => key_le_string (_id a) (_id b) = true) gs /\
      Forall2 (fun g ls => format_level g = Returns ls) gs lss /\
      s_levels stats = lss.
Proof.
  intros Hdocs. unfold get_stats, count_documents, aggregate_by_level.
  rewrite Hdocs. cbn. rewrite occupancy_rate_returns. cbn.
  set (gs := sort_by _ (group_by_level docs)).
  assert (Hall : exists lss, mapM format_level gs = Returns lss /\
                   Forall2 (fun g ls => format_level g = Returns ls) gs lss).
  { clear. induction gs as [| g gs (lss & Hm & Hf)]; cbn.
    - exists []. split; [reflexivity | constructor].
    - destruct (format_level_returns g) as (ls & Hls & _).
      rewrite Hls. cbn. rewrite Hm. cbn.
      exists (ls :: lss). split; [reflexivity |]. constructor; assumption. }
  destruct Hall as (lss & -> & Hf). cbn.
  eexists. split; [reflexivity |]. cbn.
  rewrite (filter_all match_all) by reflexivity.
  repeat split. exists gs, lss.
  split; [apply sort_by_perm |]. split; [| auto].
  apply sort_by_sorted.
  - intros a b. unfold key_le_string.
    destruct (_id a), (_id b); auto. apply String.leb_total.
  - intros a b c. unfold key_le_string.
    destruct (_id a), (_id b), (_id c); try congruence. apply string_leb_trans.
Qed.

(** X15.  Over a collection whose documents follow the data model
    ([BayDoc]), each of the four data endpoints answers 503 with the
    fixed message exactly when there is no connection, 500 with the text
    of the exception exactly when reading the [bays] collection raises,
    and 200 with a success document in every other case: no collection of
    such documents makes a handler fail, a document without [metrics]
    included. *)
Theorem endpoints_fail_only_with_the_store upper db now lvl :
  store_outcome db (get_bays db now) /\
  store_outcome db (get_stats db now) /\
  store_outcome db (get_bays_by_level upper db lvl) /\
  store_outcome db (get_low_battery_bays db).
Proof.
  destruct db as [d |]; cbn [store_outcome]; [| repeat split; reflexivity].
  destruct (bays d) as [docs | e] eqn:Hdocs.
  - split; [| split; [| split]].
    + unfold get_bays. rewrite Hdocs. cbn. eauto.
    + destruct (get_stats_ok d docs now Hdocs) as (stats & -> & _). eauto.
    + unfold get_bays_by_level. rewrite Hdocs. cbn.
      destruct (sort_by _ _); eauto.
    + destruct (get_low_battery_bays_ok d docs Hdocs) as (res & ->). eauto.
  - repeat split.
    + unfold get_bays. rewrite Hdocs. reflexivity.
    + unfold get_stats. rewrite Hdocs. reflexivity.
    + unfold get_bays_by_level. rewrite Hdocs. reflexivity.
    + unfold get_low_battery_bays, low_battery_bays. rewrite Hdocs. reflexivity.
Qed.

(** *** The per-level statistics *)

Lemma format_level_inv (g : Group) (ls : LevelStats) :
  format_level g = Returns ls ->
  ls_level ls = _id g /\ ls_total ls = g_total g /\
  ls_occupied ls = g_occupied g /\ ls_free ls = g_free g /\
  ls_occupancy_rate ls =
    (if g_total g >? 0
     then round (float_mul
                   (binary64 (inject_Z (g_occupied g) / inject_Z (g_total g)))
                   (100 # 1)) 2
     else (0 # 1)) /\
  ls_avg_temperature ls = round_or_none (g_avg_temperature g) /\
  ls_avg_battery ls = round_or_none (g_avg_battery g) /\
  ls_low_battery_sensors ls = g_low_battery_count g.
Proof.
  unfold format_level. rewrite occupancy_rate_returns. cbn.
  intros [= <-]. cbn. repeat split; reflexivity.
Qed.

Lemma sum_Z_bounds {A : Type} (f : A -> Z) (l : list A) :
  (forall a, 0 <= f a <= 1) ->
  0 <= sum_Z (f <$> l) <= Z.of_nat (List.length l).
Proof.
  intros Hf. unfold sum_Z.
  induction l as [| a l IH]; cbn; [lia |]. specialize (Hf a). lia.
Qed.

Lemma accumulate_counts (k : option string) (docs : list BayDoc) :
  g_total (accumulate k docs) = Z.of_nat (List.length docs) /\
  g_occupied (accumulate k docs) + g_free (accumulate k docs)
  = g_total (accumulate k docs) /\
  0 <= g_occupied (accumulate k docs) <= g_total (accumulate k docs) /\
  0 <= g_low_battery_count (accumulate k docs) <= g_total (accumulate k docs).
Proof.
  unfold accumulate; cbn [g_total g_occupied g_free g_low_battery_count].
  rewrite sum_Z_ones.
  pose proof (sum_Z_bounds (fun d => cond_occupied d 1 0) docs) as Ho.
  pose proof (sum_Z_bounds (fun d => if expr_battery_lt 20 d then 1 else 0) docs)
    as Hl.
  split; [reflexivity |]. split; [| split].
  - clear Ho Hl. unfold sum_Z, cond_occupied.
    induction docs as [| d docs IH]; [reflexivity |].
    cbn [fmap list_fmap foldr List.length]. rewrite Nat2Z.inj_succ.
    destruct (occupied d) as [[] |]; lia.
  - apply Ho. intros d. unfold cond_occupied.
    destruct (occupied d) as [[] |]; lia.
  - apply Hl. intros d. destruct (expr_battery_lt 20 d); lia.
Qed.

Lemma group_by_level_groups (docs : list BayDoc) (g : Group) :
  g ∈ group_by_level docs ->
  exists ds d, g = accumulate (_id g) ds /\ In d ds /\
               (forall d', In d' ds -> In d' docs /\ level d' = _id g).
Proof.
  unfold group_by_level. intros Hg.
  apply list_elem_of_fmap in Hg as (k & -> & Hk).
  apply elem_of_remove_dups, list_elem_of_fmap in Hk as (d & -> & Hd).
  exists (List.filter (fun d' => bool_decide (level d' = level d)) docs), d.
  split; [reflexivity |]. split.
  - apply filter_In. split; [apply list_elem_of_In, Hd |].
    apply bool_decide_eq_true. reflexivity.
  - intros d' Hd'. apply filter_In in Hd' as [Hin Hl].
    apply bool_decide_eq_true in Hl. auto.
Qed.

Lemma group_by_level_ids (docs : list BayDoc) :
  _id <$> group_by_level docs = remove_dups (level <$> docs).
Proof.
  unfold group_by_level. rewrite <- list_fmap_compose.
  rewrite <- (list_fmap_id (remove_dups (level <$> docs))) at 2.
  apply list_fmap_ext. intros i k _. reflexivity.
Qed.

(** X16.  In every answer of the stats endpoint, each entry of [levels]
    stands for a level that at least one bay has ([total >= 1], so the
    guarded division never takes its zero branch), satisfies
    [occupied + free = total], has an occupancy rate between 0 and 100
    and at most [total] low-battery sensors; and the levels of the
    collection appear once each, in ascending order. *)
Theorem level_stats_consistent db docs now :
  bays db = Returns docs ->
  exists stats,
    get_stats (Some db) now = (Ok stats, 200) /\
    Forall (fun ls =>
              1 <= ls_total ls /\
              ls_occupied ls + ls_free ls = ls_total ls /\
              0 <= ls_occupied ls <= ls_total ls /\
              (0 <= ls_occupancy_rate ls)%Q /\ (ls_occupancy_rate ls <= 100)%Q /\
              0 <= ls_low_battery_sensors ls <= ls_total ls)
           (s_levels stats) /\
    NoDup (ls_level <$> s_levels stats) /\
    StronglySorted (fun a b => key_le_string a b = true)
                   (ls_level <$> s_levels stats) /\
    (forall k, k ∈ ls_level <$> s_levels stats <->
               exists d, d ∈ docs /\ level d = k).
Proof.
  intros Hdocs.
  destruct (get_stats_ok db docs now Hdocs)
    as (stats & Hres & _ & _ & _ & gs & lss & Hperm & Hsorted & Hf & Hlev).
  exists stats. split; [exact Hres |]. rewrite Hlev. clear Hres Hlev.
  assert (Hids : ls_level <$> lss = _id <$> gs).
  { clear -Hf. induction Hf as [| g ls gs lss Hg _ IH]; [reflexivity |].
    cbn. rewrite IH. destruct (format_level_inv g ls Hg) as (-> & _).
    reflexivity. }
  split; [| split; [| split]].
  - assert (Hgs : Forall (fun g => g ∈ group_by_level docs) gs).
    { apply Forall_forall. intros g Hg. rewrite <- Hperm. exact Hg. }
    clear Hperm Hsorted Hids.
    induction Hf as [| g ls gs lss Hg _ IH]; [constructor |].
    apply Forall_cons in Hgs as [Hin Hgs]. constructor; [| apply IH, Hgs].
    destruct (format_level_inv g ls Hg)
      as (_ & -> & -> & -> & -> & _ & _ & ->).
    destruct (group_by_level_groups docs g Hin) as (ds & d & Hacc & Hd & _).
    destruct (accumulate_counts (_id g) ds) as (Ht & Hsum & Hocc & Hlow).
    rewrite <- Hacc in Ht, Hsum, Hocc, Hlow.
    assert (Hpos : 1 <= g_total g).
    { rewrite Ht. destruct ds; [destruct Hd | cbn; lia]. }
    split; [exact Hpos |]. split; [exact Hsum |]. split; [exact Hocc |].
    assert ((g_total g >? 0) = true) as -> by lia.
    destruct (PyFacts.percentage_bounds (g_occupied g) (g_total g) 2
                Hocc Hpos) as [Hr1 Hr2].
    split; [exact Hr1 |]. split; [exact Hr2 | exact Hlow].
  - rewrite Hids, Hperm, group_by_level_ids. apply NoDup_remove_dups.
  - rewrite Hids. clear -Hsorted.
    induction Hsorted as [| g gs _ IH Hg]; cbn; constructor; [exact IH |].
    apply Forall_fmap. exact Hg.
  - intros k. rewrite Hids, Hperm, group_by_level_ids, elem_of_remove_dups.
    rewrite list_elem_of_fmap. split; intros (d & H1 & H2); eauto.
Qed.

Lemma level_stats_consistent_witness :
  exists stats,
    get_stats (Examples.db_of Examples.store0) Examples.now0 = (Ok stats, 200) /\
    ls_level <$> s_levels stats = [Some "L1"; Some "L2"; Some "L3"] /\
    Forall (fun ls => ls_occupied ls + ls_free ls = ls_total ls) (s_levels stats).
Proof.
  destruct (level_stats_consistent
              {| cmd_ping := Returns (); bays := Returns Examples.store0;
                 events := Returns [Examples.event0] |}
              Examples.store0 Examples.now0 eq_refl)
    as (stats & Hres & Hall & _).
  exists stats. split; [exact Hres |]. split.
  - assert (Hval : get_stats (Examples.db_of Examples.store0) Examples.now0
                   = (Ok _, 200)) by (vm_compute; reflexivity).
    unfold Examples.db_of in Hval. rewrite Hres in Hval.
    injection Hval as ->. reflexivity.
  - eapply Forall_impl; [exact Hall |]. intros ls (_ & H & _). exact H.
Defined.

(** Summing a weight over the documents of each key of a duplicate-free
    list of keys sums it over the documents whose key is in the list. *)
Lemma group_weights (w : BayDoc -> Z) (docs : list BayDoc)
    (ks : list (option string)) :
  NoDup ks ->
  sum_Z ((fun k => sum_Z (w <$> List.filter
                            (fun d => bool_decide (level d = k)) docs)) <$> ks)
  = sum_Z (w <$> List.filter (fun d => bool_decide (level d ∈ ks)) docs).
Proof.
  unfold sum_Z.
  induction 1 as [| k ks Hk Hks IH]; cbn [fmap list_fmap foldr].
  - induction docs as [| d docs IHd]; cbn; [reflexivity |].
    rewrite bool_decide_eq_false_2 by apply not_elem_of_nil. exact IHd.
  - change (foldr Z.add 0 (list_fmap _ _ ?f ks))
      with (foldr Z.add 0 (f <$> ks)).
    rewrite IH. clear IH.
    induction docs as [| d docs IHd]; cbn [List.filter]; [reflexivity |].
    destruct (decide (level d = k)) as [-> | Hne].
    + rewrite bool_decide_eq_true_2 by reflexivity.
      rewrite (bool_decide_eq_false_2 (k ∈ ks)) by exact Hk.
      rewrite (bool_decide_eq_true_2 (k ∈ k :: ks)) by apply list_elem_of_here.
      cbn [fmap list_fmap foldr] in *. lia.
    + rewrite (bool_decide_eq_false_2 (level d = k)) by exact Hne.
      destruct (decide (level d ∈ ks)) as [Hin | Hnin].
      * rewrite (bool_decide_eq_true_2 (level d ∈ ks)) by exact Hin.
        rewrite (bool_decide_eq_true_2 (level d ∈ k :: ks))
          by (apply list_elem_of_further, Hin).
        cbn [fmap list_fmap foldr] in *. lia.
      * rewrite (bool_decide_eq_false_2 (level d ∈ ks)) by exact Hnin.
        rewrite (bool_decide_eq_false_2 (level d ∈ k :: ks))
          by (rewrite elem_of_cons; tauto).
        exact IHd.
Qed.

Lemma group_by_level_weights (w : BayDoc -> Z) (docs : list BayDoc) :
  sum_Z ((fun k => sum_Z (w <$> List.filter
                            (fun d => bool_decide (level d = k)) docs))
           <$> remove_dups (level <$> docs))
  = sum_Z (w <$> docs).
Proof.
  rewrite group_weights by apply NoDup_remove_dups.
  rewrite filter_all; [reflexivity |].
  intros d Hd. apply bool_decide_eq_true_2, elem_of_remove_dups.
  apply list_elem_of_fmap. exists d. split; [reflexivity |].
  apply list_elem_of_In, Hd.
Qed.

Lemma sum_Z_cond_occupied (docs : list BayDoc) :
  sum_Z ((fun d => cond_occupied d 1 0) <$> docs)
  = Z.of_nat (List.length (List.filter match_occupied docs)) /\
  sum_Z ((fun d => cond_occupied d 0 1) <$> docs)
  = Z.of_nat (List.length docs)
    - Z.of_nat (List.length (List.filter match_occupied docs)).
Proof.
  unfold sum_Z, cond_occupied.
  induction docs as [| d docs [IH1 IH2]]; [split; reflexivity |].
  cbn [fmap list_fmap foldr List.filter List.length].
  change (match_occupied d)
    with (match occupied d with Some true => true | _ => false end).
  destruct (occupied d) as [[] |]; cbn [List.length];
    rewrite ?Nat2Z.inj_succ; split; lia.
Qed.

(** X17.  For every contents of the collection that follows the data
    model ([occupied] a boolean or absent) and that the count queries and
    the aggregation of one request both see, the occupied counts of the
    levels add up to the top-level [occupied], and their free counts to
    the top-level [free]: the [$cond] on [$occupied] of the aggregation
    and the filter [{"occupied": True}] of the count select the same
    documents. *)
Theorem level_counts_add_up db docs now :
  bays db = Returns docs ->
  exists stats,
    get_stats (Some db) now = (Ok stats, 200) /\
    sum_Z (ls_occupied <$> s_levels stats) = s_occupied stats /\
    sum_Z (ls_free <$> s_levels stats) = s_free stats.
Proof.
  intros Hdocs.
  destruct (get_stats_ok db docs now Hdocs)
    as (stats & Hres & Htot & Hocc & Hfree & gs & lss & Hperm & _ & Hf & Hlev).
  exists stats. split; [exact Hres |].
  rewrite Hlev, Hfree, Htot, Hocc. clear Hres Hlev Hfree Htot Hocc.
  assert (Hmap : ls_occupied <$> lss = g_occupied <$> gs /\
                 ls_free <$> lss = g_free <$> gs).
  { clear -Hf. induction Hf as [| g ls gs lss Hg _ [IH1 IH2]]; [split; reflexivity |].
    destruct (format_level_inv g ls Hg) as (_ & _ & Ho & Hfr & _).
    cbn. rewrite IH1, IH2, Ho, Hfr. split; reflexivity. }
  destruct Hmap as [-> ->].
  destruct (sum_Z_cond_occupied docs) as [H1 H2].
  split.
  - rewrite (sum_Z_perm _ (g_occupied <$> group_by_level docs))
      by (apply fmap_Permutation, Hperm).
    unfold group_by_level. rewrite <- list_fmap_compose.
    rewrite <- H1, <- (group_by_level_weights (fun d => cond_occupied d 1 0) docs).
    reflexivity.
  - rewrite (sum_Z_perm _ (g_free <$> group_by_level docs))
      by (apply fmap_Permutation, Hperm).
    unfold group_by_level. rewrite <- list_fmap_compose.
    rewrite <- H2, <- (group_by_level_weights (fun d => cond_occupied d 0 1) docs).
    reflexivity.
Qed.

Lemma level_counts_add_up_witness :
  exists stats,
    get_stats (Examples.db_of Examples.store0) Examples.now0 = (Ok stats, 200) /\
    sum_Z (ls_occupied <$> s_levels stats) = 3 /\
    sum_Z (ls_free <$> s_levels stats) = 3.
Proof.
  destruct (level_counts_add_up
              {| cmd_ping := Returns (); bays := Returns Examples.store0;
                 events := Returns [Examples.event0] |}
              Examples.store0 Examples.now0 eq_refl) as (stats & Hres & H1 & H2).
  exists stats. split; [exact Hres |].
  assert (Hval : get_stats (Examples.db_of Examples.store0) Examples.now0
                 = (Ok _, 200)) by (vm_compute; reflexivity).
  unfold Examples.db_of in Hval. rewrite Hres in Hval.
  injection Hval as ->. split; reflexivity.
Defined.

(** *** Averages *)

Lemma sum_Q_bounds (a b : Z) (l : list Q) :
  Forall (fun x => (inject_Z a <= x)%Q /\ (x <= inject_Z b)%Q) l ->
  (inject_Z a * inject_Z (Z.of_nat (List.length l)) <= sum_Q l)%Q /\
  (sum_Q l <= inject_Z b * inject_Z (Z.of_nat (List.length l)))%Q.
Proof.
  unfold sum_Q. induction 1 as [| x l [Hx1 Hx2] _ [IH1 IH2]].
  - cbn. split; ring_simplify; apply Qle_refl.
  - cbn [foldr List.length]. rewrite Nat2Z.inj_succ.
    unfold Z.succ. rewrite inject_Z_plus. split.
    + assert (E : (inject_Z a * (inject_Z (Z.of_nat (List.length l)) + inject_Z 1)
                   == inject_Z a + inject_Z a * inject_Z (Z.of_nat (List.length l)))%Q)
        by ring.
      rewrite E. apply Qplus_le_compat; assumption.
    + assert (E : (inject_Z b * (inject_Z (Z.of_nat (List.length l)) + inject_Z 1)
                   == inject_Z b + inject_Z b * inject_Z (Z.of_nat (List.length l)))%Q)
        by ring.
      rewrite E. apply Qplus_le_compat; assumption.
Qed.

(** The mean of values of an interval lies in the interval. *)
Lemma avg_bounds (a b : Z) (l : list (option Q)) (q : Q) :
  (forall x, In (Some x) l -> (inject_Z a <= x)%Q /\ (x <= inject_Z b)%Q) ->
  avg l = Some q ->
  (inject_Z a <= q)%Q /\ (q <= inject_Z b)%Q.
Proof.
  intros Hl. unfold avg.
  assert (Hvs : Forall (fun x => (inject_Z a <= x)%Q /\ (x <= inject_Z b)%Q)
                       (omap id l)).
  { apply Forall_forall. intros x Hx.
    apply list_elem_of_omap in Hx as (o & Ho & Hid). cbn in Hid. subst o.
    apply Hl, list_elem_of_In, Ho. }
  destruct (omap id l) as [| x xs] eqn:E; [discriminate |].
  intros [= <-].
  destruct (sum_Q_bounds a b (x :: xs) Hvs) as [H1 H2].
  assert (Hpos : (0 < inject_Z (Z.of_nat (List.length (x :: xs))))%Q).
  { unfold Qlt, inject_Z; cbn. lia. }
  split.
  - apply Qle_shift_div_l; assumption.
  - apply Qle_shift_div_r; assumption.
Qed.

Lemma round_or_none_bounds (a b : Z) (x : option Q) (q : Q) :
  (forall q0, x = Some q0 -> (inject_Z a <= q0)%Q /\ (q0 <= inject_Z b)%Q) ->
  round_or_none x = Some q ->
  (inject_Z a <= q)%Q /\ (q <= inject_Z b)%Q.
Proof.
  intros Hx. unfold round_or_none.
  destruct (truthy x); [| discriminate].
  destruct x as [q0 |]; cbn; [| discriminate].
  intros [= <-]. destruct (Hx q0 eq_refl) as [H1 H2].
  apply PyFacts.round_decimal1_bounds; assumption.
Qed.

(** X18.  If every temperature in the collection lies between two whole
    numbers, so does every [avg_temperature] the stats endpoint reports,
    and likewise for the battery levels and [avg_battery]: averaging and
    rounding to one decimal never leave the range of the data. *)
Theorem averages_within_range db docs now (ta tb ba bb : Z) :
  bays db = Returns docs ->
  Forall (fun d => forall t, path_temperature d = Some t ->
                             (inject_Z ta <= t)%Q /\ (t <= inject_Z tb)%Q) docs ->
  Forall (fun d => forall x, path_battery d = Some x -> ba <= x <= bb) docs ->
  exists stats,
    get_stats (Some db) now = (Ok stats, 200) /\
    Forall (fun ls =>
              (forall q, ls_avg_temperature ls = Some q ->
                         (inject_Z ta <= q)%Q /\ (q <= inject_Z tb)%Q) /\
              (forall q, ls_avg_battery ls = Some q ->
                         (inject_Z ba <= q)%Q /\ (q <= inject_Z bb)%Q))
           (s_levels stats).
Proof.
  intros Hdocs Htemp Hbat.
  destruct (get_stats_ok db docs now Hdocs)
    as (stats & Hres & _ & _ & _ & gs & lss & Hperm & _ & Hf & Hlev).
  exists stats. split; [exact Hres |]. rewrite Hlev. clear Hres Hlev.
  assert (Hgs : Forall (fun g => g ∈ group_by_level docs) gs).
  { apply Forall_forall. intros g Hg. rewrite <- Hperm. exact Hg. }
  clear Hperm. rewrite Forall_forall in Htemp, Hbat.
  induction Hf as [| g ls gs lss Hg _ IH]; [constructor |].
  apply Forall_cons in Hgs as [Hin Hgs]. constructor; [| apply IH, Hgs].
  destruct (format_level_inv g ls Hg) as (_ & _ & _ & _ & _ & -> & -> & _).
  destruct (group_by_level_groups docs g Hin) as (ds & _ & -> & _ & Hds).
  cbn [accumulate g_avg_temperature g_avg_battery]. split.
  - intros q. apply round_or_none_bounds. intros q0. apply avg_bounds.
    intros t Ht. apply in_map_iff in Ht as (d & Hd & Hdin).
    apply (Htemp d); [apply list_elem_of_In, Hds, Hdin | exact Hd].
  - intros q. apply round_or_none_bounds. intros q0. apply avg_bounds.
    intros t Ht. apply in_map_iff in Ht as (d & Hd & Hdin).
    destruct (path_battery d) as [x |] eqn:Ex; cbn in Hd; [| discriminate].
    injection Hd as <-.
    assert (Hx : ba <= x <= bb) by (apply (Hbat d); [apply list_elem_of_In, Hds, Hdin | exact Ex]).
    unfold Qle, inject_Z; cbn. lia.
Qed.

Lemma averages_within_range_witness :
  exists stats,
    get_stats (Examples.db_of Examples.store0) Examples.now0 = (Ok stats, 200) /\
    Forall (fun ls => forall q, ls_avg_temperature ls = Some q ->
                                (inject_Z 15 <= q)%Q /\ (q <= inject_Z 35)%Q)
           (s_levels stats).
Proof.
  destruct (averages_within_range
              {| cmd_ping := Returns (); bays := Returns Examples.store0;
                 events := Returns [Examples.event0] |}
              Examples.store0 Examples.now0 15 35 0 100 eq_refl)
    as (stats & Hres & Hall).
  - apply Forall_forall. intros d Hd t Ht.
    repeat (apply elem_of_cons in Hd as [-> | Hd];
            [cbn in Ht; try discriminate; injection Ht as <-;
             unfold Qle; cbn; lia |]).
    apply not_elem_of_nil in Hd. destruct Hd.
  - apply Forall_forall. intros d Hd x Hx.
    repeat (apply elem_of_cons in Hd as [-> | Hd];
            [cbn in Hx; try discriminate; injection Hx as <-; lia |]).
    apply not_elem_of_nil in Hd. destruct Hd.
  - exists stats. split; [exact Hres |].
    eapply Forall_impl; [exact Hall |]. intros ls [H _]. exact H.
Defined.

End AppMore.
